(** * SimpleVector and ArrayPtr: a shallow embedding

    The development embeds the two headers of the repository,
    [array_ptr.h] (class [ArrayPtr]) and [simple_vector.h] (class
    [SimpleVector]), as computations over an explicit machine state:

    - the free store is a finite map from block addresses to the element
      slots of the block ([new Type[n]] adds a block, [delete[]] removes it);
    - a raw pointer [Type*] is a block address and an offset, [nullptr] is
      the pointer without a block;
    - [size_t] values are integers in [0, 2^64) and every [size_t]
      operation of the source is written with its wrap-around;
    - element constructors and assignments may throw: the state carries a
      fuse, the number of element operations that still succeed;
    - a [const Type&] parameter is a reference, to an object of the caller
      or to a slot of the free store, and is read where the source reads
      it; a [Type&&] parameter is the value of the temporary it binds;
    - an access outside a live block or a [delete[]] of something that is
      not a live block is undefined behaviour in C++: the machine records
      it in a log, drops the store (a load yields [Type()]) and goes on
      with the members as the compiled code would leave them, so that the
      log says whether a run stayed defined. *)

From Stdlib Require Import ZArith Lia.
From stdpp Require Import gmap list.

Local Open Scope Z_scope.

(** ** Element types *)

(** What the template parameter [Type] has to provide: a value-initialised
    element [Type()] and the state a moved-from element is left in (the
    identity for trivially copyable types such as [int]). *)
Class Element (T : Type) := {
  dflt : T;
  moved : T → T
}.

(** ** Machine words *)

Definition size_t_modulus : Z := 2 ^ 64.

(** Reduction of an integer to [size_t]. *)
Definition wrap (z : Z) : Z := z mod size_t_modulus.

(** ** Raw pointers *)

Definition loc := nat.

Record ptr := Ptr { base : option loc; off : Z }.

Definition nullptr : ptr := Ptr None 0.

(** [p + k] *)
Definition ptr_add (p : ptr) (k : Z) : ptr := Ptr (base p) (off p + k).

(** [std::distance(p, q)], a [ptrdiff_t], for two pointers into one
    block *)
Definition distance (p q : ptr) : Z := off q - off p.

Global Instance ptr_eq_dec : EqDecision ptr.
Proof. solve_decision. Defined.

(** [p == q] on pointers *)
Definition ptr_eqb (p q : ptr) : bool := bool_decide (p = q).

(** ** Exceptions and undefined behaviour *)

Inductive exn :=
| out_of_range      (* std::out_of_range, thrown by At *)
| element_error.    (* whatever an element constructor or assignment throws *)

Inductive Fault :=
| BadAccess (p : ptr)   (* load or store outside a live block *)
| BadDelete (p : ptr).  (* delete[] of a pointer that is not a live block *)

(** ** ArrayPtr *)

Record ArrayPtr := MkArrayPtr { raw_ptr_ : ptr }.

(** ** SimpleVector: the three data members *)

Record SimpleVector := MkSimpleVector {
  data_ : ArrayPtr;
  size_ : Z;
  capacity_ : Z
}.

(** A reference parameter of a member function is either the object the
    function runs on or another object; [this != &other] tells them apart. *)
Inductive reference (A : Type) :=
| Self
| Other (a : A).
Arguments Self {A}.
Arguments Other {A} a.

Section Model.
Context {T : Type} `{Element T}.

(** ** The machine state *)

Record State := MkState {
  this : SimpleVector;            (* the object a member function runs on *)
  heap : gmap loc (list T);       (* live blocks of the free store *)
  fuse : option nat;              (* element operations left before one throws *)
  faults : list Fault             (* undefined behaviour met so far, latest first *)
}.

Definition with_this (v : SimpleVector) (s : State) : State :=
  MkState v (heap s) (fuse s) (faults s).
Definition with_heap (h : gmap loc (list T)) (s : State) : State :=
  MkState (this s) h (fuse s) (faults s).
Definition with_fuse (f : option nat) (s : State) : State :=
  MkState (this s) (heap s) f (faults s).
Definition add_fault (f : Fault) (s : State) : State :=
  MkState (this s) (heap s) (fuse s) (f :: faults s).

(** ** Computations: return, throw or abort on a failed [assert] *)

Inductive outcome (A : Type) :=
| Ret (a : A) (s : State)
| Throw (e : exn) (s : State)
| Aborted.
Arguments Ret {A} a s.
Arguments Throw {A} e s.
Arguments Aborted {A}.

Definition M (A : Type) : Type := State → outcome A.

Definition ret {A} (a : A) : M A := λ s, Ret a s.

Definition bind {A B} (m : M A) (k : A → M B) : M B := λ s,
  match m s with
  | Ret a s' => k a s'
  | Throw e s' => Throw e s'
  | Aborted => Aborted
  end.

Definition throw {A} (e : exn) : M A := λ s, Throw e s.

(** [try { body } catch (...) { handler }] *)
Definition try_catch {A} (body : M A) (handler : exn → M A) : M A := λ s,
  match body s with
  | Throw e s' => handler e s'
  | r => r
  end.

(** [assert(b)] *)
Definition assert (b : bool) : M unit := λ s,
  if b then Ret tt s else Aborted.

End Model.

Arguments State T : clear implicits.
Arguments outcome T A : clear implicits.
Arguments M T A : clear implicits.
Arguments Ret {T A} a s.
Arguments Throw {T A} e s.
Arguments Aborted {T A}.

Declare Scope cpp_scope.
Delimit Scope cpp_scope with cpp.
Notation "x <- m ;; k" := (bind m (λ x, k))
  (at level 100, m at next level, k at level 200, right associativity) : cpp_scope.
Notation "m ;; k" := (bind m (λ _, k))
  (at level 100, k at level 200, right associativity) : cpp_scope.
Local Open Scope cpp_scope.

Section Primitives.
Context {T : Type} `{Element T}.

(** ** Element operations and the free store *)

(** One element constructor or assignment runs; it throws when the fuse is
    spent. *)
Definition tick : M T unit := λ s,
  match fuse s with
  | None => Ret tt s
  | Some (S n) => Ret tt (with_fuse (Some n) s)
  | Some O => Throw element_error (with_fuse None s)
  end.

Fixpoint ticks (n : nat) : M T unit :=
  match n with
  | O => ret tt
  | S n' => tick ;; ticks n'
  end.

(** [*p] read *)
Definition load (p : ptr) : M T T := λ s,
  match base p with
  | Some l =>
      match heap s !! l with
      | Some blk =>
          if (0 <=? off p) && (off p <? Z.of_nat (length blk))
          then Ret (default dflt (blk !! Z.to_nat (off p))) s
          else Ret dflt (add_fault (BadAccess p) s)
      | None => Ret dflt (add_fault (BadAccess p) s)
      end
  | None => Ret dflt (add_fault (BadAccess p) s)
  end.

(** [*p] written *)
Definition store (p : ptr) (x : T) : M T unit := λ s,
  match base p with
  | Some l =>
      match heap s !! l with
      | Some blk =>
          if (0 <=? off p) && (off p <? Z.of_nat (length blk))
          then Ret tt (with_heap (<[l := <[Z.to_nat (off p) := x]> blk]> (heap s)) s)
          else Ret tt (add_fault (BadAccess p) s)
      | None => Ret tt (add_fault (BadAccess p) s)
      end
  | None => Ret tt (add_fault (BadAccess p) s)
  end.

(** [*p = x] by the element's copy or move assignment, [x] a value of the
    caller *)
Definition assign (p : ptr) (x : T) : M T unit :=
  tick ;; store p x.

(** A [const Type&] parameter: the reference is bound to an object of the
    caller outside the free store, which holds [x] throughout the call, or
    to the slot at an address of the free store, which holds what the
    free store has there when the reference is read. *)
Inductive const_ref : Type :=
  | Local (x : T)
  | Slot (p : ptr).

(** The value read through a reference. *)
Definition read (r : const_ref) : M T T :=
  match r with
  | Local x => ret x
  | Slot p => load p
  end.

(** [*p = r] by the element's copy assignment: the reference is read when
    the assignment runs. *)
Definition assign_from (p : ptr) (r : const_ref) : M T unit :=
  x <- read r ;;
  assign p x.

(** [new Type[n]]: every element is default-constructed; when a constructor
    throws nothing stays allocated. *)
Definition new_array (n : Z) : M T ptr :=
  ticks (Z.to_nat n) ;;
  λ s, let l := fresh (dom (heap s)) in
       Ret (Ptr (Some l) 0)
           (with_heap (<[l := replicate (Z.to_nat n) dflt]> (heap s)) s).

(** [delete[] p] *)
Definition delete_array (p : ptr) : M T unit := λ s,
  if ptr_eqb p nullptr then Ret tt s
  else match base p with
       | Some l =>
           if bool_decide (is_Some (heap s !! l)) && (off p =? 0)
           then Ret tt (with_heap (delete l (heap s)) s)
           else Ret tt (add_fault (BadDelete p) s)
       | None => Ret tt (add_fault (BadDelete p) s)
       end.

(** ** The algorithms of <algorithm> the two headers call

    Each loop runs [std::distance(first, last)] times; the ranges the
    vector passes are never reversed. *)

(** [std::generate(first, last, [] { return x; })]: the generator builds
    a temporary, which is move-assigned to the slot. *)
Fixpoint generate_loop (n : nat) (first : ptr) (x : T) : M T unit :=
  match n with
  | O => ret tt
  | S n' =>
      tick ;;
      assign first x ;;
      generate_loop n' (ptr_add first 1) x
  end.

Definition std_generate (first last : ptr) (x : T) : M T unit :=
  generate_loop (Z.to_nat (distance first last)) first x.

(** [std::copy(first, last, d_first)] *)
Fixpoint copy_loop (n : nat) (first d_first : ptr) : M T ptr :=
  match n with
  | O => ret d_first
  | S n' =>
      x <- load first ;;
      assign d_first x ;;
      copy_loop n' (ptr_add first 1) (ptr_add d_first 1)
  end.

Definition std_copy (first last d_first : ptr) : M T ptr :=
  copy_loop (Z.to_nat (distance first last)) first d_first.

(** [std::move(first, last, d_first)], also through
    [std::make_move_iterator]: the source slot is left moved-from. *)
Fixpoint move_loop (n : nat) (first d_first : ptr) : M T ptr :=
  match n with
  | O => ret d_first
  | S n' =>
      x <- load first ;;
      assign d_first x ;;
      store first (moved x) ;;
      move_loop n' (ptr_add first 1) (ptr_add d_first 1)
  end.

Definition std_move (first last d_first : ptr) : M T ptr :=
  move_loop (Z.to_nat (distance first last)) first d_first.

(** [std::move] from a [std::initializer_list]: its elements are const, so
    each one is copied. *)
Fixpoint move_from_list (init : list T) (d_first : ptr) : M T ptr :=
  match init with
  | [] => ret d_first
  | x :: init' =>
      assign d_first x ;;
      move_from_list init' (ptr_add d_first 1)
  end.

(** [std::copy_backward(first, last, d_last)] *)
Fixpoint copy_backward_loop (n : nat) (last d_last : ptr) : M T ptr :=
  match n with
  | O => ret d_last
  | S n' =>
      x <- load (ptr_add last (-1)) ;;
      assign (ptr_add d_last (-1)) x ;;
      copy_backward_loop n' (ptr_add last (-1)) (ptr_add d_last (-1))
  end.

Definition std_copy_backward (first last d_last : ptr) : M T ptr :=
  copy_backward_loop (Z.to_nat (distance first last)) last d_last.

(** [std::move_backward(first, last, d_last)] *)
Fixpoint move_backward_loop (n : nat) (last d_last : ptr) : M T ptr :=
  match n with
  | O => ret d_last
  | S n' =>
      x <- load (ptr_add last (-1)) ;;
      assign (ptr_add d_last (-1)) x ;;
      store (ptr_add last (-1)) (moved x) ;;
      move_backward_loop n' (ptr_add last (-1)) (ptr_add d_last (-1))
  end.

Definition std_move_backward (first last d_last : ptr) : M T ptr :=
  move_backward_loop (Z.to_nat (distance first last)) last d_last.

(** ** array_ptr.h *)

(** [ArrayPtr() = default] *)
Definition ArrayPtr_default : ArrayPtr := MkArrayPtr nullptr.

(** [explicit ArrayPtr(size_t size)]. An exception out of [std::generate]
    leaves the constructor before the object exists: its destructor does
    not run and the block stays allocated. *)
Definition ArrayPtr_sized (size : Z) : M T ArrayPtr :=
  if size =? 0 then ret (MkArrayPtr nullptr)
  else
    p <- new_array size ;;
    std_generate p (ptr_add p size) dflt ;;
    ret (MkArrayPtr p).

(** [explicit ArrayPtr(Type* raw_ptr)] *)
Definition ArrayPtr_adopt (raw_ptr : ptr) : ArrayPtr := MkArrayPtr raw_ptr.

(** [Get()] *)
Definition ArrayPtr_Get (a : ArrayPtr) : ptr := raw_ptr_ a.

(** [explicit ArrayPtr(ArrayPtr&& other)]: the new object and [other]
    afterwards. [other.Get()] returns the pointer by value and [std::move]
    of that value changes nothing in [other]. *)
Definition ArrayPtr_move_ctor (other : ArrayPtr) : ArrayPtr * ArrayPtr :=
  (MkArrayPtr (ArrayPtr_Get other), other).

(** [~ArrayPtr()] *)
Definition ArrayPtr_dtor (a : ArrayPtr) : M T unit :=
  delete_array (raw_ptr_ a).

(** [operator=(ArrayPtr&& other)]: the object and [other] afterwards *)
Definition ArrayPtr_move_assign (a : ArrayPtr) (other : reference ArrayPtr)
  : ArrayPtr * reference ArrayPtr :=
  match other with
  | Self => (a, Self)
  | Other o => (MkArrayPtr (ArrayPtr_Get o), Other o)
  end.

(** [Release()]: the returned pointer and the object afterwards *)
Definition ArrayPtr_Release (a : ArrayPtr) : ptr * ArrayPtr :=
  let tmp := raw_ptr_ a in
  (tmp, MkArrayPtr nullptr).

(** [operator[](size_t index)]: the address [raw_ptr_ + index] *)
Definition ArrayPtr_index (a : ArrayPtr) (index : Z) : ptr :=
  ptr_add (raw_ptr_ a) index.

(** [explicit operator bool()] *)
Definition ArrayPtr_bool (a : ArrayPtr) : bool :=
  if ptr_eqb (raw_ptr_ a) nullptr then false else true.

(** [swap(ArrayPtr& other)]: the object and [other] afterwards *)
Definition ArrayPtr_swap (a other : ArrayPtr) : ArrayPtr * ArrayPtr :=
  let tmp := raw_ptr_ a in
  (MkArrayPtr (raw_ptr_ other), MkArrayPtr tmp).

End Primitives.

Arguments const_ref T : clear implicits.
Arguments Local {T} x.
Arguments Slot {T} p.

Section Vector.
Context {T : Type} `{Element T}.

(** ** simple_vector.h *)

(** The data members of [*this], read and written. *)
Definition get_this : M T SimpleVector := λ s, Ret (this s) s.
Definition set_this (v : SimpleVector) : M T unit := λ s, Ret tt (with_this v s).

Definition get_data : M T ArrayPtr := v <- get_this ;; ret (data_ v).
Definition get_size : M T Z := v <- get_this ;; ret (size_ v).
Definition get_capacity : M T Z := v <- get_this ;; ret (capacity_ v).

Definition set_data (d : ArrayPtr) : M T unit :=
  v <- get_this ;; set_this (MkSimpleVector d (size_ v) (capacity_ v)).
Definition set_size (n : Z) : M T unit :=
  v <- get_this ;; set_this (MkSimpleVector (data_ v) n (capacity_ v)).
Definition set_capacity (n : Z) : M T unit :=
  v <- get_this ;; set_this (MkSimpleVector (data_ v) (size_ v) n).

(** Default member initialisers: [data_] null, [size_ = 0],
    [capacity_ = 0]. *)
Definition empty_vector : SimpleVector := MkSimpleVector ArrayPtr_default 0 0.

(** The const member functions, as functions of the object. *)

(** [GetSize()] *)
Definition GetSize (v : SimpleVector) : Z := size_ v.

(** [GetCapacity()] *)
Definition GetCapacity (v : SimpleVector) : Z := capacity_ v.

(** [IsEmpty()] *)
Definition IsEmpty (v : SimpleVector) : bool := size_ v =? 0.

(** [begin()], [cbegin()]: [Iterator(data_.Get())] *)
Definition begin_of (v : SimpleVector) : ptr := ArrayPtr_Get (data_ v).

(** [end()], [cend()]: [&data_[size_]] *)
Definition end_of (v : SimpleVector) : ptr := ArrayPtr_index (data_ v) (size_ v).

(** [operator[](size_t index)]: [data_[index]] *)
Definition subscript (v : SimpleVector) (index : Z) : ptr :=
  ArrayPtr_index (data_ v) index.

Definition begin_ : M T ptr := v <- get_this ;; ret (begin_of v).
Definition end_ : M T ptr := v <- get_this ;; ret (end_of v).

(** [data_.swap(copy)] with a local [copy]: the local afterwards *)
Definition data_swap (copy : ArrayPtr) : M T ArrayPtr :=
  d <- get_data ;;
  let '(d', copy') := ArrayPtr_swap d copy in
  set_data d' ;;
  ret copy'.

(** [catch (...) { copy.~ArrayPtr(); throw; }]: the handler destroys the
    local, and leaving the function with the exception destroys it again. *)
Definition destroy_and_rethrow {A} (copy : ArrayPtr) (e : exn) : M T A :=
  ArrayPtr_dtor copy ;;
  ArrayPtr_dtor copy ;;
  throw e.

(** [void Reserve(size_t new_capacity)] *)
Definition Reserve (new_capacity : Z) : M T unit :=
  cap <- get_capacity ;;
  if new_capacity <=? cap then ret tt
  else
    copy <- ArrayPtr_sized new_capacity ;;
    try_catch
      (b <- begin_ ;;
       e <- end_ ;;
       std_move b e (ArrayPtr_Get copy) ;;
       copy <- data_swap copy ;;
       set_capacity new_capacity ;;
       ArrayPtr_dtor copy)
      (destroy_and_rethrow copy).

(** An exception that leaves a constructor body destroys the member
    [data_], which was built before the body ran. *)
Definition constructing (body : M T unit) : M T unit :=
  try_catch body (λ e, d <- get_data ;; ArrayPtr_dtor d ;; throw e).

(** [SimpleVector() noexcept = default] *)
Definition SimpleVector_default : M T unit :=
  set_this empty_vector.

(** [explicit SimpleVector(size_t size)] *)
Definition SimpleVector_sized (size : Z) : M T unit :=
  set_this empty_vector ;;
  constructing
    (Reserve size ;;
     set_size size ;;
     set_capacity size).

(** [SimpleVector(size_t size, const Type& value)] *)
Definition SimpleVector_filled (size : Z) (value : T) : M T unit :=
  set_this empty_vector ;;
  constructing
    (Reserve size ;;
     set_size size ;;
     set_capacity size ;;
     d <- get_data ;;
     std_generate (ArrayPtr_Get d) (ptr_add (ArrayPtr_Get d) size) value).

(** [SimpleVector(std::initializer_list<Type> init)], with [data_]
    initialised by [data_(init.size())] *)
Definition SimpleVector_init (init : list T) : M T unit :=
  d <- ArrayPtr_sized (Z.of_nat (length init)) ;;
  set_this (MkSimpleVector d 0 0) ;;
  constructing
    (set_size (Z.of_nat (length init)) ;;
     n <- get_size ;;
     set_capacity n ;;
     d <- get_data ;;
     move_from_list init (ArrayPtr_Get d) ;;
     ret tt).

(** [SimpleVector(ReserveProxyObj other)], with
    [other.GetSizeReverse() = capacity_to_reserve] *)
Definition SimpleVector_reserved (capacity_to_reserve : Z) : M T unit :=
  set_this empty_vector ;;
  constructing
    (Reserve capacity_to_reserve ;;
     set_size 0).

(** [SimpleVector(const SimpleVector& other)] *)
Definition SimpleVector_copy (other : SimpleVector) : M T unit :=
  set_this empty_vector ;;
  constructing
    (copy <- ArrayPtr_sized (GetCapacity other) ;;
     try_catch
       (std_copy (begin_of other) (end_of other) (ArrayPtr_Get copy) ;;
        copy <- data_swap copy ;;
        set_size (GetSize other) ;;
        set_capacity (GetCapacity other) ;;
        ArrayPtr_dtor copy)
       (destroy_and_rethrow copy)).

(** [void swap(SimpleVector& other) noexcept]: [other] afterwards *)
Definition swap (other : reference SimpleVector) : M T (reference SimpleVector) :=
  match other with
  | Self => ret Self
  | Other o =>
      v <- get_this ;;
      let '(d, od) := ArrayPtr_swap (data_ v) (data_ o) in
      set_this (MkSimpleVector d (size_ o) (capacity_ o)) ;;
      ret (Other (MkSimpleVector od (size_ v) (capacity_ v)))
  end.

(** [operator=(SimpleVector&& rhs) noexcept]: [rhs] afterwards *)
Definition move_assign (rhs : reference SimpleVector) : M T (reference SimpleVector) :=
  match rhs with
  | Self => ret Self
  | Other _ => swap rhs
  end.

(** [SimpleVector(SimpleVector&& other) noexcept]: [other] afterwards *)
Definition SimpleVector_move (other : SimpleVector) : M T SimpleVector :=
  set_this empty_vector ;;
  r <- move_assign (Other other) ;;
  match r with
  | Other o => ret o
  | Self => ret other
  end.

(** A local object built by a constructor and handed back; [*this] is
    kept. *)
Definition local_object (ctor : M T unit) : M T SimpleVector := λ s,
  match ctor s with
  | Ret _ s' => Ret (this s') (with_this (this s) s')
  | Throw e s' => Throw e (with_this (this s) s')
  | Aborted => Aborted
  end.

(** [~SimpleVector()]: the member [data_] is destroyed *)
Definition SimpleVector_dtor (v : SimpleVector) : M T unit :=
  ArrayPtr_dtor (data_ v).

(** [operator=(const SimpleVector& rhs)] *)
Definition copy_assign (rhs : reference SimpleVector) : M T unit :=
  match rhs with
  | Self => ret tt
  | Other r =>
      copy <- local_object (SimpleVector_copy r) ;;
      copy <- swap (Other copy) ;;
      match copy with
      | Other c => SimpleVector_dtor c
      | Self => ret tt
      end
  end.

(** [data_[size_++] = item]: the index is taken and [size_] incremented
    before the element assignment runs. *)
Definition store_at_end (item : T) : M T unit :=
  n <- get_size ;;
  set_size (wrap (n + 1)) ;;
  d <- get_data ;;
  assign (ArrayPtr_index d n) item.

(** [data_[size_++] = item] with [item] a [const Type&] *)
Definition copy_at_end (item : const_ref T) : M T unit :=
  n <- get_size ;;
  set_size (wrap (n + 1)) ;;
  d <- get_data ;;
  assign_from (ArrayPtr_index d n) item.

(** [void PushBack(const Type& item)]: [item] is read after Reserve has
    returned. *)
Definition PushBack_copy (item : const_ref T) : M T unit :=
  n <- get_size ;;
  cap <- get_capacity ;;
  if n <? cap then copy_at_end item
  else
    Reserve (wrap (n + 1)) ;;
    copy_at_end item.

(** [void PushBack(Type&& item)] *)
Definition PushBack_move (item : T) : M T unit :=
  n <- get_size ;;
  cap <- get_capacity ;;
  if n <? cap then store_at_end item
  else
    Reserve (wrap (n * 2 + 1)) ;;
    store_at_end item.

(** [void Resize(size_t new_size)] *)
Definition Resize (new_size : Z) : M T unit :=
  n <- get_size ;;
  if new_size <? n then set_size new_size
  else
    copy <- ArrayPtr_sized new_size ;;
    try_catch
      (b <- begin_ ;;
       e <- end_ ;;
       std_move b e (ArrayPtr_Get copy) ;;
       copy <- data_swap copy ;;
       set_size new_size ;;
       set_capacity new_size ;;
       ArrayPtr_dtor copy)
      (destroy_and_rethrow copy).

(** The [assert] that opens Insert and SeсureInsert. *)
Definition assert_position (pos : ptr) : M T unit :=
  b <- begin_ ;;
  e <- end_ ;;
  assert (distance b pos <=? distance b e).

(** [Iterator SeсureInsert(ConstIterator pos, const Type& value)] *)
Definition SecureInsert_copy (pos : ptr) (value : const_ref T) : M T ptr :=
  assert_position pos ;;
  cap <- get_capacity ;;
  copy <- ArrayPtr_sized cap ;;
  try_catch
    (b <- begin_ ;;
     let insert_pos := wrap (distance b pos) in
     d <- get_data ;;
     e <- end_ ;;
     std_copy_backward (ptr_add (ArrayPtr_Get d) insert_pos) e (ptr_add e 1) ;;
     assign_from (ArrayPtr_index d insert_pos) value ;;
     copy <- data_swap copy ;;
     n <- get_size ;;
     set_size (wrap (n + 1)) ;;
     d <- get_data ;;
     ArrayPtr_dtor copy ;;
     ret (ptr_add (ArrayPtr_Get d) insert_pos))
    (destroy_and_rethrow copy).

(** [Iterator SeсureInsert(ConstIterator pos, Type&& value)] *)
Definition SecureInsert_move (pos : ptr) (value : T) : M T ptr :=
  assert_position pos ;;
  b <- begin_ ;;
  let insert_pos := wrap (distance b pos) in
  d <- get_data ;;
  e <- end_ ;;
  std_move_backward (ptr_add (ArrayPtr_Get d) insert_pos) e (ptr_add e 1) ;;
  assign (ArrayPtr_index d insert_pos) value ;;
  n <- get_size ;;
  set_size (wrap (n + 1)) ;;
  d <- get_data ;;
  ret (ptr_add (ArrayPtr_Get d) insert_pos).

(** [Iterator Insert(ConstIterator pos, const Type& value)] *)
Definition Insert_copy (pos : ptr) (value : const_ref T) : M T ptr :=
  assert_position pos ;;
  e <- end_ ;;
  if ptr_eqb pos e then
    PushBack_copy value ;;
    e <- end_ ;;
    ret (ptr_add e (-1))
  else
    n <- get_size ;;
    cap <- get_capacity ;;
    if n <? cap then SecureInsert_copy pos value
    else
      b <- begin_ ;;
      let valid_pos := wrap (distance b pos) in
      Resize (wrap (n + 1)) ;;
      d <- get_data ;;
      SecureInsert_copy (ptr_add (ArrayPtr_Get d) valid_pos) value.

(** [Iterator Insert(ConstIterator pos, Type&& value)] *)
Definition Insert_move (pos : ptr) (value : T) : M T ptr :=
  assert_position pos ;;
  e <- end_ ;;
  if ptr_eqb pos e then
    PushBack_move value ;;
    e <- end_ ;;
    ret (ptr_add e (-1))
  else
    n <- get_size ;;
    cap <- get_capacity ;;
    if n <? cap then SecureInsert_move pos value
    else
      b <- begin_ ;;
      let valid_pos := wrap (distance b pos) in
      Reserve (wrap (n + 1)) ;;
      d <- get_data ;;
      SecureInsert_move (ptr_add (ArrayPtr_Get d) valid_pos) value.

(** [void PopBack() noexcept] *)
Definition PopBack : M T unit :=
  n <- get_size ;;
  assert (negb (n =? 0)) ;;
  set_size (wrap (n - 1)).

(** [Iterator Erase(ConstIterator pos)] *)
Definition Erase (pos : ptr) : M T ptr :=
  b <- begin_ ;;
  e <- end_ ;;
  assert (distance b pos <? distance b e) ;;
  n <- get_size ;;
  copy <- ArrayPtr_sized n ;;
  try_catch
    (b <- begin_ ;;
     let erase_pos := wrap (distance b pos) in
     end' <- std_move b (ptr_add b erase_pos) (ArrayPtr_Get copy) ;;
     e <- end_ ;;
     std_move (ptr_add (ptr_add b erase_pos) 1) e end' ;;
     copy <- data_swap copy ;;
     n <- get_size ;;
     set_size (wrap (n - 1)) ;;
     d <- get_data ;;
     ArrayPtr_dtor copy ;;
     ret (ptr_add (ArrayPtr_Get d) erase_pos))
    (destroy_and_rethrow copy).

(** [Type& At(size_t index)]: the reference is the address of the slot *)
Definition At (index : Z) : M T ptr :=
  n <- get_size ;;
  if index >=? n then throw out_of_range
  else
    d <- get_data ;;
    ret (ArrayPtr_index d index).

(** [const Type& At(size_t index) const] *)
Definition At_const (index : Z) : M T ptr :=
  n <- get_size ;;
  if index >=? n then throw out_of_range
  else
    d <- get_data ;;
    ret (ArrayPtr_index d index).

(** [void Clear() noexcept] *)
Definition Clear : M T unit :=
  set_size 0.

End Vector.

(** ** The comparison operators *)

(** [Type] with its [operator<]. *)
Class Ordered (T : Type) := {
  less : T → T → bool
}.

Section Comparison.
Context {T : Type} `{Element T} `{Ordered T}.

(** [std::lexicographical_compare(first1, last1, first2, last2)]: the loop
    runs while neither range is exhausted, [n] times at most. *)
Fixpoint lexicographical_compare_loop (n : nat) (first1 last1 first2 last2 : ptr)
  : M T bool :=
  match n with
  | O => ret (ptr_eqb first1 last1 && negb (ptr_eqb first2 last2))
  | S n' =>
      x <- load first1 ;;
      y <- load first2 ;;
      if less x y then ret true
      else if less y x then ret false
      else lexicographical_compare_loop n' (ptr_add first1 1) last1
             (ptr_add first2 1) last2
  end.

Definition lexicographical_compare (first1 last1 first2 last2 : ptr) : M T bool :=
  lexicographical_compare_loop
    (Z.to_nat (Z.min (distance first1 last1) (distance first2 last2)))
    first1 last1 first2 last2.

(** [operator<] *)
Definition operator_lt (lhs rhs : SimpleVector) : M T bool :=
  lexicographical_compare (begin_of lhs) (end_of lhs) (begin_of rhs) (end_of rhs).

(** [operator==]: [!(lhs < rhs) && !(rhs < lhs)] *)
Definition operator_eq (lhs rhs : SimpleVector) : M T bool :=
  a <- operator_lt lhs rhs ;;
  if negb a then
    b <- operator_lt rhs lhs ;;
    ret (negb b)
  else ret false.

(** [operator!=]: [!(lhs == rhs)] *)
Definition operator_ne (lhs rhs : SimpleVector) : M T bool :=
  e <- operator_eq lhs rhs ;;
  ret (negb e).

(** [operator<=]: [(lhs < rhs) || (rhs == lhs)] *)
Definition operator_le (lhs rhs : SimpleVector) : M T bool :=
  a <- operator_lt lhs rhs ;;
  if a then ret true else operator_eq rhs lhs.

(** [operator>] *)
Definition operator_gt (lhs rhs : SimpleVector) : M T bool :=
  lexicographical_compare (begin_of rhs) (end_of rhs) (begin_of lhs) (end_of lhs).

(** [operator>=]: [!(lhs < rhs) || (rhs == lhs)] *)
Definition operator_ge (lhs rhs : SimpleVector) : M T bool :=
  a <- operator_lt lhs rhs ;;
  if negb a then ret true else operator_eq rhs lhs.

(** The lexicographic order of two lists of elements. *)
Fixpoint lex_lt (l r : list T) : bool :=
  match l, r with
  | _, [] => false
  | [], _ :: _ => true
  | x :: l', y :: r' =>
      if less x y then true
      else if less y x then false
      else lex_lt l' r'
  end.

End Comparison.

(** ** What a state shows of the vector *)

Section Observations.
Context {T : Type} `{Element T}.

(** The slots of the block a pointer is the start of; none for any other
    pointer. *)
Definition block_at (h : gmap loc (list T)) (p : ptr) : option (list T) :=
  match base p with
  | Some l => if off p =? 0 then h !! l else None
  | None => None
  end.

(** The slots of the buffer [data_] holds. *)
Definition slots (s : State T) : list T :=
  default [] (block_at (heap s) (raw_ptr_ (data_ (this s)))).

(** The logical elements, the slots at the indices [0, size_). *)
Definition elements (s : State T) : list T :=
  take (Z.to_nat (size_ (this s))) (slots s).

(** [data_] is null or owns a live block. *)
Definition buffer_ok (s : State T) : Prop :=
  raw_ptr_ (data_ (this s)) = nullptr ∨
  ∃ l blk, raw_ptr_ (data_ (this s)) = Ptr (Some l) 0 ∧ heap s !! l = Some blk.

(** The reference [r] can be read in [s], where it refers to [x]: it is
    bound to an object of the caller that holds [x], or to a slot of a
    live block that holds [x]. *)
Definition refers (s : State T) (r : const_ref T) (x : T) : Prop :=
  match r with
  | Local y => y = x
  | Slot p => ∃ l blk, base p = Some l ∧ heap s !! l = Some blk ∧
                       0 ≤ off p ∧ blk !! Z.to_nat (off p) = Some x
  end.

(** The reference does not refer into the buffer [data_] holds. *)
Definition foreign (s : State T) (r : const_ref T) : Prop :=
  match r with
  | Local _ => True
  | Slot p => base p ≠ base (raw_ptr_ (data_ (this s)))
  end.

(** Every live block of [s] other than the buffer of the vector is in
    [s'] as it was. *)
Definition others_kept (s s' : State T) : Prop :=
  ∀ l, Some l ≠ base (raw_ptr_ (data_ (this s))) → is_Some (heap s !! l) →
       heap s' !! l = heap s !! l.

(** The logical elements lie inside the buffer. *)
Record backed (s : State T) : Prop := {
  backed_buffer : buffer_ok s;
  backed_size : 0 ≤ size_ (this s) ≤ Z.of_nat (length (slots s));
  backed_range : size_ (this s) < size_t_modulus
}.

(** The invariants of the data model: the elements lie inside the buffer,
    [capacity_] is the number of slots of the buffer and
    [size_ ≤ capacity_]. *)
Record valid (s : State T) : Prop := {
  valid_buffer : buffer_ok s;
  valid_capacity : capacity_ (this s) = Z.of_nat (length (slots s));
  valid_size : 0 ≤ size_ (this s) ≤ capacity_ (this s);
  valid_range : capacity_ (this s) < size_t_modulus
}.

(** What PushBack promises of the state [s'] it leaves from [s]: [item] is
    stored at the index of the old size after the old elements, the size
    is one more, and the capacity is unchanged with the same buffer when
    there was room and [grown] otherwise. *)
Record pushed (s : State T) (item : T) (grown : Z) (s' : State T) : Prop := {
  pushed_valid : valid s';
  pushed_defined : faults s' = faults s;
  pushed_size : size_ (this s') = size_ (this s) + 1;
  pushed_item : slots s' !! Z.to_nat (size_ (this s)) = Some item;
  pushed_elements : elements s' = elements s ++ [item];
  pushed_capacity :
    if size_ (this s) <? capacity_ (this s)
    then capacity_ (this s') = capacity_ (this s) ∧ data_ (this s') = data_ (this s)
    else capacity_ (this s') = grown
}.

(** What Resize promises of the state [s'] it leaves from [s]: shrinking
    only lowers the size, the buffer and the capacity stay as they are;
    otherwise the buffer has exactly [new_size] slots, the old elements in
    front and value-initialised elements behind them. *)
Record resized (s : State T) (new_size : Z) (s' : State T) : Prop := {
  resized_defined : faults s' = faults s;
  resized_size : size_ (this s') = new_size;
  resized_outcome :
    if new_size <? size_ (this s)
    then capacity_ (this s') = capacity_ (this s) ∧
         data_ (this s') = data_ (this s) ∧ heap s' = heap s ∧
         elements s' = take (Z.to_nat new_size) (elements s)
    else capacity_ (this s') = new_size ∧
         Z.of_nat (length (slots s')) = new_size ∧
         elements s' = elements s
                       ++ replicate (Z.to_nat new_size - Z.to_nat (size_ (this s))) dflt
}.

(** What Erase at index [k] does, with the position [r] it returns and the
    state [s'] it leaves from [s]: the element at [k] is gone, the later
    ones are one index lower, the others keep their values, the size is
    one less, and [r] is the position of index [k], which is [end()] when
    the last element went. The new buffer has as many slots as there were
    elements, and [capacity_] is not written. *)
Record erased (s : State T) (k : Z) (r : ptr) (s' : State T) : Prop := {
  erased_backed : backed s';
  erased_defined : faults s' = faults s;
  erased_capacity : capacity_ (this s') = capacity_ (this s);
  erased_slots : Z.of_nat (length (slots s')) = size_ (this s);
  erased_size : size_ (this s') = size_ (this s) - 1;
  erased_elements : elements s' = delete (Z.to_nat k) (elements s);
  erased_result : r = ptr_add (begin_of (this s')) k;
  erased_last : k = size_ (this s) - 1 → r = end_of (this s')
}.

End Observations.

Arguments Reserve {T _} new_capacity : simpl never.
Arguments Resize {T _} new_size : simpl never.
Arguments slots {T} s : simpl never.
Arguments elements {T} s : simpl never.
Arguments buffer_ok {T} s : simpl never.

(** ** Elements of type [int] *)

Global Instance Z_element : Element Z := {| dflt := 0; moved := λ x, x |}.

Global Instance Z_ordered : Ordered Z := {| less := Z.ltb |}.

(** A machine with an empty free store, no object built yet. *)
Definition boot (f : option nat) : State Z := MkState empty_vector ∅ f [].

(** What a run shows: the result or the exception, the members of the
    vector, its slots, and the undefined behaviour met. *)
Definition observe {A} (r : outcome Z A)
  : option ((A + exn) * SimpleVector * list Z * list Fault) :=
  match r with
  | Ret a s => Some (inl a, this s, slots s, faults s)
  | Throw e s => Some (inr e, this s, slots s, faults s)
  | Aborted => None
  end.

(** The state a run ends in, with the exception still in flight or not. *)
Definition final {A} (r : outcome Z A) : State Z :=
  match r with
  | Ret _ s => s
  | Throw _ s => s
  | Aborted => boot None
  end.

(** [SimpleVector<int> v{1, 2, 3}]: size 3, capacity 3. *)
Definition vec_123 : State Z := final (SimpleVector_init [1; 2; 3] (boot None)).

(** [SimpleVector<int> v{1, 2, 3}; v.Reserve(5)]: size 3, capacity 5. *)
Definition vec_123_roomy : State Z :=
  final ((SimpleVector_init [1; 2; 3] ;; Reserve 5) (boot None)).

(** [vec_123_roomy] with a fuse: the element operation after the first
    [n] throws. *)
Definition vec_123_roomy_fused (n : nat) : State Z :=
  with_fuse (Some n) vec_123_roomy.

(** [vec_123] with a fuse. *)
Definition vec_123_fused (n : nat) : State Z :=
  with_fuse (Some n) vec_123.

(** [SimpleVector<int> v(Reserve(3)); v.PushBack(7); v.PushBack(8)]:
    size 2, capacity 3. *)
Definition vec_78_reserved : State Z :=
  final ((SimpleVector_reserved 3 ;; PushBack_move 7 ;; PushBack_move 8)
           (boot None)).

(** Two vectors: [b{1, 2, 3}] is [*this], [a{7, 8}] is another object. *)
Definition two_vectors : State Z * SimpleVector :=
  match (SimpleVector_init [1; 2; 3] ;;
         local_object (SimpleVector_init [7; 8])) (boot None) with
  | Ret a s => (s, a)
  | _ => (boot None, empty_vector)
  end.

(** [ArrayPtr<int> a(3)]: the buffer and the free store it lives in. *)
Definition owner_of_3 : State Z * ArrayPtr :=
  match ArrayPtr_sized 3 (boot None) with
  | Ret a s => (s, a)
  | _ => (boot None, ArrayPtr_default)
  end.

(** * Properties *)

Section Theory.
Context {T : Type} `{Element T}.
Implicit Types (v : SimpleVector) (h : gmap loc (list T)) (fl : list Fault).
Implicit Types (blk src dst : list T) (l : loc) (x : T).

(** ** Running a computation step by step *)

Lemma bind_Ret {A B} (m : M T A) (k : A → M T B) s a s' :
  m s = Ret a s' → bind m k s = k a s'.
Proof. intros E. unfold bind. by rewrite E. Qed.

Lemma bind_Throw {A B} (m : M T A) (k : A → M T B) s e s' :
  m s = Throw e s' → bind m k s = Throw e s'.
Proof. intros E. unfold bind. by rewrite E. Qed.

Lemma try_catch_Ret {A} (body : M T A) handler s a s' :
  body s = Ret a s' → try_catch body handler s = Ret a s'.
Proof. intros E. unfold try_catch. by rewrite E. Qed.

(** The member accessors only read or write [*this]. *)
Lemma bind_get_this {B} (k : SimpleVector → M T B) s :
  bind get_this k s = k (this s) s.
Proof. reflexivity. Qed.
Lemma bind_set_this {B} (k : unit → M T B) v s :
  bind (set_this v) k s = k tt (with_this v s).
Proof. reflexivity. Qed.
Lemma bind_get_data {B} (k : ArrayPtr → M T B) s :
  bind get_data k s = k (data_ (this s)) s.
Proof. reflexivity. Qed.
Lemma bind_get_size {B} (k : Z → M T B) s :
  bind get_size k s = k (size_ (this s)) s.
Proof. reflexivity. Qed.
Lemma bind_get_capacity {B} (k : Z → M T B) s :
  bind get_capacity k s = k (capacity_ (this s)) s.
Proof. reflexivity. Qed.
Lemma bind_set_size {B} (k : unit → M T B) n s :
  bind (set_size n) k s
  = k tt (with_this (MkSimpleVector (data_ (this s)) n (capacity_ (this s))) s).
Proof. reflexivity. Qed.
Lemma bind_set_capacity {B} (k : unit → M T B) n s :
  bind (set_capacity n) k s
  = k tt (with_this (MkSimpleVector (data_ (this s)) (size_ (this s)) n) s).
Proof. reflexivity. Qed.
Lemma bind_begin {B} (k : ptr → M T B) s :
  bind begin_ k s = k (raw_ptr_ (data_ (this s))) s.
Proof. reflexivity. Qed.
Lemma bind_end {B} (k : ptr → M T B) s :
  bind end_ k s = k (ptr_add (raw_ptr_ (data_ (this s))) (size_ (this s))) s.
Proof. reflexivity. Qed.
Lemma bind_data_swap {B} (k : ArrayPtr → M T B) copy s :
  bind (data_swap copy) k s
  = k (MkArrayPtr (raw_ptr_ (data_ (this s))))
      (with_this (MkSimpleVector (MkArrayPtr (raw_ptr_ copy))
                    (size_ (this s)) (capacity_ (this s))) s).
Proof. reflexivity. Qed.
Lemma bind_ret {A B} (k : A → M T B) a s : bind (ret a) k s = k a s.
Proof. reflexivity. Qed.
Lemma bind_assert_true {B} (k : unit → M T B) s : bind (assert true) k s = k tt s.
Proof. reflexivity. Qed.

Ltac members :=
  repeat first
    [ rewrite bind_get_this | rewrite bind_set_this | rewrite bind_get_data
    | rewrite bind_get_size | rewrite bind_get_capacity | rewrite bind_set_size
    | rewrite bind_set_capacity | rewrite bind_begin | rewrite bind_end
    | rewrite bind_data_swap | rewrite bind_ret | rewrite bind_assert_true ];
  cbv [with_this with_heap with_fuse add_fault ArrayPtr_Get ArrayPtr_index
       begin_of end_of];
  cbn [this heap fuse faults data_ size_ capacity_ raw_ptr_].

Lemma assign_from_Local (p : ptr) (x : T) : assign_from p (Local x) = assign p x.
Proof. reflexivity. Qed.

Lemma tick_ok v h fl :
  tick (MkState v h None fl) = Ret tt (MkState v h None fl).
Proof. reflexivity. Qed.

Lemma ticks_ok n v h fl :
  ticks n (MkState v h None fl) = Ret tt (MkState v h None fl).
Proof.
  induction n as [|n IH]; [done|]. cbn [ticks].
  by rewrite (bind_Ret _ _ _ _ _ (tick_ok v h fl)).
Qed.

Lemma in_block_test blk (i : nat) :
  (i < length blk)%nat →
  (0 <=? Z.of_nat i) && (Z.of_nat i <? Z.of_nat (length blk)) = true.
Proof. intros. apply andb_true_intro. split; [apply Z.leb_le|apply Z.ltb_lt]; lia. Qed.

Lemma load_ok v h f fl l blk (i : nat) x :
  h !! l = Some blk → blk !! i = Some x →
  load (Ptr (Some l) (Z.of_nat i)) (MkState v h f fl) = Ret x (MkState v h f fl).
Proof.
  intros Hl Hi. unfold load. cbn. rewrite Hl.
  rewrite in_block_test by (by eapply lookup_lt_Some).
  by rewrite Nat2Z.id, Hi.
Qed.

Lemma store_ok v h f fl l blk (i : nat) x :
  h !! l = Some blk → (i < length blk)%nat →
  store (Ptr (Some l) (Z.of_nat i)) x (MkState v h f fl)
  = Ret tt (MkState v (<[l := <[i := x]> blk]> h) f fl).
Proof.
  intros Hl Hi. unfold store. cbn. rewrite Hl.
  rewrite in_block_test by done. by rewrite Nat2Z.id.
Qed.

Lemma assign_ok v h fl l blk (i : nat) x :
  h !! l = Some blk → (i < length blk)%nat →
  assign (Ptr (Some l) (Z.of_nat i)) x (MkState v h None fl)
  = Ret tt (MkState v (<[l := <[i := x]> blk]> h) None fl).
Proof.
  intros Hl Hi. unfold assign.
  rewrite (bind_Ret _ _ _ _ _ (tick_ok v h fl)). by apply store_ok.
Qed.

Lemma new_array_ok n v h fl :
  new_array n (MkState v h None fl)
  = Ret (Ptr (Some (fresh (dom h))) 0)
        (MkState v (<[fresh (dom h) := replicate (Z.to_nat n) dflt]> h) None fl).
Proof.
  unfold new_array. by rewrite (bind_Ret _ _ _ _ _ (ticks_ok _ v h fl)).
Qed.

Lemma fresh_block_free h : h !! fresh (dom h) = None.
Proof. apply not_elem_of_dom, is_fresh. Qed.

Lemma ptr_add_block l (i : nat) : ptr_add (Ptr (Some l) (Z.of_nat i)) 1 = Ptr (Some l) (Z.of_nat (S i)).
Proof. unfold ptr_add. cbn. f_equal. lia. Qed.

Lemma ptr_sub_block l (i : nat) : ptr_add (Ptr (Some l) (Z.of_nat (S i))) (-1) = Ptr (Some l) (Z.of_nat i).
Proof. unfold ptr_add. cbn. f_equal. lia. Qed.

(** ** The loops *)

(** [std::generate] writes [x] to [n] slots from index [a] on. *)
Lemma generate_loop_ok n : ∀ (a : nat) x v h fl l blk,
  h !! l = Some blk → (a + n ≤ length blk)%nat →
  generate_loop n (Ptr (Some l) (Z.of_nat a)) x (MkState v h None fl)
  = Ret tt (MkState v (<[l := list_inserts a (replicate n x) blk]> h) None fl).
Proof.
  induction n as [|n IH]; intros a x v h fl l blk Hl Hlen.
  - cbn. unfold ret. by rewrite insert_id.
  - cbn [generate_loop].
    rewrite (bind_Ret _ _ _ _ _ (tick_ok v h fl)).
    rewrite (bind_Ret _ _ _ _ _ (assign_ok v h fl l blk a x Hl ltac:(lia))).
    rewrite ptr_add_block.
    rewrite (IH (S a) x v _ fl l (<[a := x]> blk)).
    + rewrite insert_insert_eq. do 3 f_equal.
      cbn [replicate list_inserts].
      symmetry. apply list_insert_inserts_lt. lia.
    + by rewrite lookup_insert_eq.
    + rewrite length_insert. lia.
Qed.

Lemma heap_overwrite h l1 l2 (a a' b b' : list T) :
  l1 ≠ l2 →
  <[l1 := a]> (<[l2 := b]> (<[l1 := a']> (<[l2 := b']> h)))
  = <[l1 := a]> (<[l2 := b]> h).
Proof.
  intros Hne. apply map_eq. intros i.
  destruct (decide (i = l1)) as [->|]; [by rewrite !lookup_insert_eq|].
  rewrite (lookup_insert_ne _ l1), (lookup_insert_ne (<[l2:=b]> h) l1) by done.
  destruct (decide (i = l2)) as [->|]; [by rewrite !lookup_insert_eq|].
  by rewrite !lookup_insert_ne by done.
Qed.

Lemma take_drop_step (k : list T) (a n : nat) x :
  k !! a = Some x → take (S n) (drop a k) = x :: take n (drop (S a) k).
Proof. intros Hx. by rewrite (drop_S _ _ _ Hx). Qed.

(** [std::move] between two blocks: [n] slots from index [a] of the source
    arrive at index [b] of the destination, and the source slots are left
    moved-from. *)
Lemma move_loop_ok n : ∀ (a b : nat) v h fl ls ld src dst,
  ls ≠ ld → h !! ls = Some src → h !! ld = Some dst →
  (a + n ≤ length src)%nat → (b + n ≤ length dst)%nat →
  move_loop n (Ptr (Some ls) (Z.of_nat a)) (Ptr (Some ld) (Z.of_nat b))
    (MkState v h None fl)
  = Ret (Ptr (Some ld) (Z.of_nat (b + n)))
      (MkState v
         (<[ls := list_inserts a (moved <$> take n (drop a src)) src]>
            (<[ld := list_inserts b (take n (drop a src)) dst]> h))
         None fl).
Proof.
  induction n as [|n IH]; intros a b v h fl ls ld src dst Hne Hs Hd Ha Hb.
  - cbn. unfold ret. rewrite Nat.add_0_r.
    by rewrite (insert_id h ld), (insert_id h ls).
  - destruct (lookup_lt_is_Some_2 src a ltac:(lia)) as [x Hx].
    cbn [move_loop].
    rewrite (bind_Ret _ _ _ _ _ (load_ok v h None fl ls src a x Hs Hx)).
    rewrite (bind_Ret _ _ _ _ _ (assign_ok v h fl ld dst b x Hd ltac:(lia))).
    rewrite (bind_Ret _ _ _ _ _
      (store_ok v _ None fl ls src a (moved x)
         ltac:(by rewrite lookup_insert_ne) ltac:(lia))).
    rewrite !ptr_add_block.
    rewrite (IH (S a) (S b) v _ fl ls ld (<[a := moved x]> src) (<[b := x]> dst)).
    + rewrite heap_overwrite by done.
      rewrite drop_insert_lt by lia.
      rewrite (take_drop_step src a n x Hx).
      cbn [fmap list_fmap list_inserts].
      rewrite !list_insert_inserts_lt by lia.
      do 3 f_equal. lia.
    + done.
    + by rewrite lookup_insert_eq.
    + rewrite lookup_insert_ne by done. by rewrite lookup_insert_eq.
    + rewrite length_insert. lia.
    + rewrite length_insert. lia.
Qed.

(** [std::copy] between two blocks. *)
Lemma copy_loop_ok n : ∀ (a b : nat) v h fl ls ld src dst,
  ls ≠ ld → h !! ls = Some src → h !! ld = Some dst →
  (a + n ≤ length src)%nat → (b + n ≤ length dst)%nat →
  copy_loop n (Ptr (Some ls) (Z.of_nat a)) (Ptr (Some ld) (Z.of_nat b))
    (MkState v h None fl)
  = Ret (Ptr (Some ld) (Z.of_nat (b + n)))
      (MkState v (<[ld := list_inserts b (take n (drop a src)) dst]> h) None fl).
Proof.
  induction n as [|n IH]; intros a b v h fl ls ld src dst Hne Hs Hd Ha Hb.
  - cbn. unfold ret. rewrite Nat.add_0_r. by rewrite (insert_id h ld).
  - destruct (lookup_lt_is_Some_2 src a ltac:(lia)) as [x Hx].
    cbn [copy_loop].
    rewrite (bind_Ret _ _ _ _ _ (load_ok v h None fl ls src a x Hs Hx)).
    rewrite (bind_Ret _ _ _ _ _ (assign_ok v h fl ld dst b x Hd ltac:(lia))).
    rewrite !ptr_add_block.
    rewrite (IH (S a) (S b) v _ fl ls ld src (<[b := x]> dst)).
    + rewrite insert_insert_eq.
      rewrite (take_drop_step src a n x Hx).
      cbn [list_inserts].
      rewrite !list_insert_inserts_lt by lia.
      do 3 f_equal. lia.
    + done.
    + by rewrite lookup_insert_ne.
    + by rewrite lookup_insert_eq.
    + lia.
    + rewrite length_insert. lia.
Qed.

(** ** ArrayPtr(size) and the destructor *)

Lemma inserts_replicate (n : nat) x :
  list_inserts 0 (replicate n x) (replicate n x) = replicate n x.
Proof.
  apply list_eq. intros i.
  destruct (decide (i < n)%nat).
  - rewrite list_lookup_inserts by (rewrite !length_replicate; lia).
    by rewrite Nat.sub_0_r.
  - rewrite list_lookup_inserts_ge by (rewrite !length_replicate; lia). done.
Qed.

Lemma ArrayPtr_sized_zero (s : State T) :
  ArrayPtr_sized 0 s = Ret (MkArrayPtr nullptr) s.
Proof. reflexivity. Qed.

Lemma ArrayPtr_sized_ok size v h fl :
  0 < size →
  ArrayPtr_sized size (MkState v h None fl)
  = Ret (MkArrayPtr (Ptr (Some (fresh (dom h))) 0))
        (MkState v (<[fresh (dom h) := replicate (Z.to_nat size) dflt]> h) None fl).
Proof.
  intros Hpos. unfold ArrayPtr_sized.
  destruct (Z.eqb_spec size 0) as [|_]; [lia|].
  rewrite (bind_Ret _ _ _ _ _ (new_array_ok size v h fl)).
  unfold std_generate, distance, ptr_add. cbn [off base].
  replace (0 + size - 0) with size by lia.
  rewrite (bind_Ret _ _ _ _ _
    (generate_loop_ok (Z.to_nat size) 0%nat dflt v _ fl (fresh (dom h))
       (replicate (Z.to_nat size) dflt)
       ltac:(by rewrite lookup_insert_eq)
       ltac:(rewrite length_replicate; lia))).
  unfold ret. by rewrite insert_insert_eq, inserts_replicate.
Qed.

Lemma ArrayPtr_dtor_null (s : State T) :
  ArrayPtr_dtor (MkArrayPtr nullptr) s = Ret tt s.
Proof. reflexivity. Qed.

Lemma ArrayPtr_dtor_ok v h f fl l blk :
  h !! l = Some blk →
  ArrayPtr_dtor (MkArrayPtr (Ptr (Some l) 0)) (MkState v h f fl)
  = Ret tt (MkState v (delete l h) f fl).
Proof.
  intros Hl. unfold ArrayPtr_dtor, delete_array. cbn.
  rewrite bool_decide_eq_true_2 by (by rewrite Hl). done.
Qed.

(** ** Buffers *)

Lemma inserts_prefix (k l : list T) :
  (length k ≤ length l)%nat → list_inserts 0 k l = k ++ drop (length k) l.
Proof.
  intros Hlen. rewrite <-(take_drop (length k) l) at 1.
  apply list_inserts_0_r. rewrite length_take. lia.
Qed.

Lemma buffer_cases (s : State T) :
  buffer_ok s →
  (data_ (this s) = MkArrayPtr nullptr ∧ slots s = []) ∨
  (∃ l, data_ (this s) = MkArrayPtr (Ptr (Some l) 0) ∧ heap s !! l = Some (slots s)).
Proof.
  unfold buffer_ok, slots. destruct s as [[[p] n cap] h f fl]. cbn.
  intros [->|(l & blk & -> & Hl)].
  - by left.
  - right. exists l. unfold block_at. cbn. by rewrite Hl.
Qed.

Lemma slots_block d n cap h f fl l blk :
  raw_ptr_ d = Ptr (Some l) 0 → h !! l = Some blk →
  slots (MkState (MkSimpleVector d n cap) h f fl) = blk.
Proof. intros Hd Hl. unfold slots, block_at. cbn. by rewrite Hd; cbn; rewrite Hl. Qed.

Lemma buffer_ok_block d n cap h f fl l blk :
  raw_ptr_ d = Ptr (Some l) 0 → h !! l = Some blk →
  buffer_ok (MkState (MkSimpleVector d n cap) h f fl).
Proof. intros Hd Hl. right. by exists l, blk. Qed.

(** ** Moving the elements to a replacement buffer

    Reserve and Resize share one shape: build a buffer of [N] slots, move
    the elements into it, swap it in, update the sizes, destroy the old
    buffer. [rest] is what follows the swap. *)
Lemma relocate_run (s : State T) N sz cp
    (rest : ArrayPtr → M T unit) (handler : ArrayPtr → exn → M T unit) :
  (∀ c s0, size_ (this s0) = size_ (this s) →
           capacity_ (this s0) = capacity_ (this s) →
           rest c s0
           = ArrayPtr_dtor c (with_this (MkSimpleVector (data_ (this s0)) sz cp) s0)) →
  buffer_ok s → fuse s = None →
  0 ≤ size_ (this s) ≤ Z.of_nat (length (slots s)) →
  size_ (this s) ≤ N →
  ∃ s', (copy <- ArrayPtr_sized N ;;
         try_catch
           (b <- begin_ ;;
            e <- end_ ;;
            std_move b e (ArrayPtr_Get copy) ;;
            copy <- data_swap copy ;;
            rest copy)
           (handler copy)) s = Ret tt s' ∧
        buffer_ok s' ∧ fuse s' = None ∧ faults s' = faults s ∧
        size_ (this s') = sz ∧ capacity_ (this s') = cp ∧
        slots s' = elements s
                   ++ replicate (Z.to_nat N - Z.to_nat (size_ (this s))) dflt ∧
        others_kept s s' ∧
        (∀ l, base (raw_ptr_ (data_ (this s))) = Some l → heap s' !! l = None).
Proof.
  intros Hrest Hbuf Hfuse Hsize Hfit.
  destruct (buffer_cases s Hbuf) as [[Hd Hsl]|(l & Hd & Hl)];
    unfold elements; clear Hbuf; set (src := slots s) in *; clearbody src;
    destruct s as [[d n cap] h f fl]; cbn in *; subst f d.
  - (* no buffer yet: there is nothing to move *)
    subst src. cbn in Hsize. assert (n = 0) as -> by lia.
    destruct (Z.eq_dec N 0) as [->|HN].
    + rewrite (bind_Ret _ _ _ _ _ (ArrayPtr_sized_zero _)).
      erewrite try_catch_Ret; [eexists; split; [reflexivity|]|].
      2:{ members. unfold std_move, distance. cbn [off ptr_add nullptr].
          change (Z.to_nat (0 + 0 - 0)) with 0%nat. cbn [move_loop].
          members. rewrite Hrest by done. members.
          by rewrite ArrayPtr_dtor_null. }
      cbn. split; [by left|]. do 5 (split; [done|]).
      split; [by intros l0 _ _|done].
    + rewrite (bind_Ret _ _ _ _ _ (ArrayPtr_sized_ok N _ h fl ltac:(lia))).
      erewrite try_catch_Ret; [eexists; split; [reflexivity|]|].
      2:{ members. unfold std_move, distance. cbn [off ptr_add nullptr].
          change (Z.to_nat (0 + 0 - 0)) with 0%nat. cbn [move_loop].
          members. rewrite Hrest by done. members.
          by rewrite ArrayPtr_dtor_null. }
      cbn. split; [|do 4 (split; [done|]); split; [|split]].
      * eapply buffer_ok_block; [done|apply lookup_insert_eq].
      * erewrite slots_block; [|done|apply lookup_insert_eq].
        cbn. by rewrite Nat.sub_0_r.
      * intros l0 _ Hlive. cbn in *. rewrite lookup_insert_ne; [done|].
        intros <-. rewrite fresh_block_free in Hlive. by destruct Hlive.
      * done.
  - (* a live block *)
    destruct (Z.eq_dec N 0) as [->|HN].
    + assert (n = 0) as -> by lia.
      rewrite (bind_Ret _ _ _ _ _ (ArrayPtr_sized_zero _)).
      erewrite try_catch_Ret; [eexists; split; [reflexivity|]|].
      2:{ members. unfold std_move, distance. cbn [off ptr_add].
          change (Z.to_nat (0 + 0 - 0)) with 0%nat. cbn [move_loop].
          members. rewrite Hrest by done. members.
          by erewrite ArrayPtr_dtor_ok. }
      cbn. split; [by left|]. do 5 (split; [done|]). split.
      * intros l0 Hl0 _. cbn in *. rewrite lookup_delete_ne; [done|congruence].
      * intros l0 [= <-]. apply lookup_delete_eq.
    + set (l' := fresh (dom h)).
      assert (h !! l' = None) as Hfresh by apply fresh_block_free.
      assert (l ≠ l') as Hne by (intros ->; congruence).
      rewrite (bind_Ret _ _ _ _ _ (ArrayPtr_sized_ok N _ h fl ltac:(lia))).
      fold l'.
      erewrite try_catch_Ret; [eexists; split; [reflexivity|]|].
      2:{ members.
          unfold std_move, distance, ptr_add. cbn [off base].
          replace (0 + n - 0) with n by lia.
          rewrite (bind_Ret _ _ _ _ _
            (move_loop_ok (Z.to_nat n) 0%nat 0%nat _ _ fl l l' src
               (replicate (Z.to_nat N) dflt) Hne
               ltac:(by rewrite lookup_insert_ne)
               ltac:(by rewrite lookup_insert_eq)
               ltac:(lia)
               ltac:(rewrite length_replicate; lia))).
          members. rewrite Hrest by done. members.
          erewrite ArrayPtr_dtor_ok; [reflexivity|apply lookup_insert_eq]. }
      cbn.
      assert (∀ (A B : list T) (g : gmap loc (list T)),
                delete l (<[l := A]> (<[l' := B]> g)) !! l' = Some B) as Hlook.
      { intros A B g. rewrite lookup_delete_ne by done.
        rewrite lookup_insert_ne by done. apply lookup_insert_eq. }
      split; [|do 4 (split; [done|]); split; [|split]].
      * eapply buffer_ok_block; [done|apply Hlook].
      * erewrite slots_block; [|done|apply Hlook].
        rewrite drop_0, inserts_prefix
          by (rewrite length_take, length_replicate; lia).
        rewrite length_take, drop_replicate. do 2 f_equal. lia.
      * intros l0 Hl0 Hlive. cbn in *.
        assert (l' ≠ l0) as Hne0.
        { intros <-. rewrite Hfresh in Hlive. by destruct Hlive. }
        rewrite lookup_delete_ne by congruence.
        rewrite lookup_insert_ne by congruence.
        by rewrite !lookup_insert_ne by done.
      * intros l0 [= <-]. apply lookup_delete_eq.
Qed.

Lemma relocate_ok (s : State T) N sz cp
    (rest : ArrayPtr → M T unit) (handler : ArrayPtr → exn → M T unit) :
  (∀ c s0, size_ (this s0) = size_ (this s) →
           capacity_ (this s0) = capacity_ (this s) →
           rest c s0
           = ArrayPtr_dtor c (with_this (MkSimpleVector (data_ (this s0)) sz cp) s0)) →
  buffer_ok s → fuse s = None →
  0 ≤ size_ (this s) ≤ Z.of_nat (length (slots s)) →
  size_ (this s) ≤ N →
  ∃ s', (copy <- ArrayPtr_sized N ;;
         try_catch
           (b <- begin_ ;;
            e <- end_ ;;
            std_move b e (ArrayPtr_Get copy) ;;
            copy <- data_swap copy ;;
            rest copy)
           (handler copy)) s = Ret tt s' ∧
        buffer_ok s' ∧ fuse s' = None ∧ faults s' = faults s ∧
        size_ (this s') = sz ∧ capacity_ (this s') = cp ∧
        slots s' = elements s
                   ++ replicate (Z.to_nat N - Z.to_nat (size_ (this s))) dflt.
Proof.
  intros Hrest Hbuf Hfuse Hsize Hfit.
  destruct (relocate_run s N sz cp rest handler Hrest Hbuf Hfuse Hsize Hfit)
    as (s' & Hrun & Hbuf' & Hfuse' & Hfl & Hsz & Hcp & Hsl & _ & _).
  by exists s'.
Qed.

(** ** Reserve *)

(** A growing Reserve moves the elements to a new block of exactly
    [new_capacity] slots and leaves [size_] alone. *)
Lemma Reserve_grow_run (s : State T) new_capacity :
  buffer_ok s → fuse s = None →
  0 ≤ size_ (this s) ≤ Z.of_nat (length (slots s)) →
  size_ (this s) ≤ new_capacity →
  capacity_ (this s) < new_capacity →
  ∃ s', Reserve new_capacity s = Ret tt s' ∧
        buffer_ok s' ∧ fuse s' = None ∧ faults s' = faults s ∧
        size_ (this s') = size_ (this s) ∧
        capacity_ (this s') = new_capacity ∧
        slots s' = elements s
                   ++ replicate (Z.to_nat new_capacity - Z.to_nat (size_ (this s))) dflt ∧
        others_kept s s' ∧
        (∀ l, base (raw_ptr_ (data_ (this s))) = Some l → heap s' !! l = None).
Proof.
  intros Hbuf Hfuse Hsize Hfit Hcap.
  unfold Reserve. members.
  destruct (Z.leb_spec new_capacity (capacity_ (this s))) as [|_]; [lia|].
  apply (relocate_run s new_capacity (size_ (this s)) new_capacity
           (λ copy, set_capacity new_capacity ;; ArrayPtr_dtor copy)); try done.
  intros c s0 Hsz _. members. by rewrite Hsz.
Qed.

Lemma Reserve_grow (s : State T) new_capacity :
  buffer_ok s → fuse s = None →
  0 ≤ size_ (this s) ≤ Z.of_nat (length (slots s)) →
  size_ (this s) ≤ new_capacity →
  capacity_ (this s) < new_capacity →
  ∃ s', Reserve new_capacity s = Ret tt s' ∧
        buffer_ok s' ∧ fuse s' = None ∧ faults s' = faults s ∧
        size_ (this s') = size_ (this s) ∧
        capacity_ (this s') = new_capacity ∧
        slots s' = elements s
                   ++ replicate (Z.to_nat new_capacity - Z.to_nat (size_ (this s))) dflt.
Proof.
  intros Hbuf Hfuse Hsize Hfit Hcap.
  destruct (Reserve_grow_run s new_capacity Hbuf Hfuse Hsize Hfit Hcap)
    as (s' & Hrun & Hbuf' & Hfuse' & Hfl & Hsz & Hcp & Hsl & _ & _).
  by exists s'.
Qed.

(** Reserve of no more than the capacity does nothing. *)
Lemma Reserve_noop (s : State T) new_capacity :
  new_capacity ≤ capacity_ (this s) → Reserve new_capacity s = Ret tt s.
Proof.
  intros Hle. unfold Reserve. members.
  by destruct (Z.leb_spec new_capacity (capacity_ (this s))) as [_|]; [|lia].
Qed.

(** ** PushBack *)

Lemma wrap_small z : 0 ≤ z < size_t_modulus → wrap z = z.
Proof. apply Z.mod_small. Qed.

Lemma store_at_end_ok (s : State T) item :
  buffer_ok s → fuse s = None →
  0 ≤ size_ (this s) < Z.of_nat (length (slots s)) →
  size_ (this s) + 1 < size_t_modulus →
  ∃ s', store_at_end item s = Ret tt s' ∧
        buffer_ok s' ∧ fuse s' = None ∧ faults s' = faults s ∧
        this s' = MkSimpleVector (data_ (this s)) (size_ (this s) + 1)
                    (capacity_ (this s)) ∧
        slots s' = <[Z.to_nat (size_ (this s)) := item]> (slots s).
Proof.
  intros Hbuf Hfuse Hsize Hrange.
  destruct (buffer_cases s Hbuf) as [[Hd Hsl]|(l & Hd & Hl)];
    clear Hbuf; set (src := slots s) in *; clearbody src;
    destruct s as [[d n cap] h f fl]; cbn in *; subst f d.
  - subst src. cbn in Hsize. lia.
  - unfold store_at_end. members.
    rewrite wrap_small by lia.
    unfold ptr_add. cbn [base off].
    replace (0 + n) with (Z.of_nat (Z.to_nat n)) by lia.
    erewrite assign_ok; [|exact Hl|lia].
    eexists. split; [reflexivity|]. cbn.
    split; [|repeat split].
    + eapply buffer_ok_block; [done|apply lookup_insert_eq].
    + erewrite slots_block; [|done|apply lookup_insert_eq]. done.
Qed.

Lemma take_insert_end (k : list T) (n : nat) x :
  (n < length k)%nat → take (S n) (<[n := x]> k) = take n k ++ [x].
Proof.
  intros Hn. erewrite take_S_r by (by apply list_lookup_insert_eq).
  by rewrite take_insert_ge by lia.
Qed.

(** Both overloads of PushBack: store in place when there is room, else
    Reserve([grown]) and store. *)
Lemma push_pattern (s : State T) item grown (m : M T unit) :
  m s = (if size_ (this s) <? capacity_ (this s) then store_at_end item
         else Reserve grown ;; store_at_end item) s →
  valid s → fuse s = None →
  (size_ (this s) = capacity_ (this s) →
   size_ (this s) < grown < size_t_modulus) →
  ∃ s', m s = Ret tt s' ∧ pushed s item grown s'.
Proof.
  intros -> [Hbuf Hcap Hsize Hrange] Hfuse Hgrow.
  destruct (Z.ltb_spec (size_ (this s)) (capacity_ (this s))) as [Hroom|Hfull].
  - destruct (store_at_end_ok s item Hbuf Hfuse ltac:(lia) ltac:(lia))
      as (s' & Hrun & Hbuf' & _ & Hfl & Hthis & Hsl).
    exists s'. split; [done|].
    split; rewrite ?Hthis; cbn; try done.
    + split; rewrite ?Hthis, ?Hsl, ?length_insert; cbn; try done; lia.
    + rewrite Hsl. apply list_lookup_insert_eq. lia.
    + unfold elements. rewrite Hthis, Hsl. cbn.
      replace (Z.to_nat (size_ (this s) + 1)) with (S (Z.to_nat (size_ (this s)))) by lia.
      apply take_insert_end. lia.
    + destruct (Z.ltb_spec (size_ (this s)) (capacity_ (this s))); [done|lia].
  - assert (size_ (this s) = capacity_ (this s)) as Heq by lia.
    specialize (Hgrow Heq).
    destruct (Reserve_grow s grown Hbuf Hfuse ltac:(lia) ltac:(lia) ltac:(lia))
      as (s1 & Hrun1 & Hbuf1 & Hfuse1 & Hfl1 & Hsz1 & Hcap1 & Hsl1).
    assert (length (elements s) = Z.to_nat (size_ (this s))) as Hlen.
    { unfold elements. rewrite length_take. lia. }
    assert (length (slots s1) = Z.to_nat grown) as Hlen1.
    { rewrite Hsl1, length_app, length_replicate, Hlen. lia. }
    destruct (store_at_end_ok s1 item Hbuf1 Hfuse1 ltac:(lia) ltac:(lia))
      as (s' & Hrun & Hbuf' & _ & Hfl & Hthis & Hsl).
    exists s'. split; [by rewrite (bind_Ret _ _ _ _ _ Hrun1)|].
    split; rewrite ?Hthis; cbn; try done.
    + split; rewrite ?Hthis, ?Hsl, ?length_insert; cbn; try done; lia.
    + congruence.
    + lia.
    + rewrite Hsl, Hsz1. apply list_lookup_insert_eq. lia.
    + unfold elements at 1. rewrite Hthis, Hsl, Hsz1. cbn.
      replace (Z.to_nat (size_ (this s) + 1)) with (S (Z.to_nat (size_ (this s)))) by lia.
      rewrite take_insert_end by lia.
      rewrite Hsl1, take_app_length' by done. done.
    + destruct (Z.ltb_spec (size_ (this s)) (capacity_ (this s))); [lia|done].
Qed.

(** ** References to the item *)





(** ** PushBack, as it is meant *)


(** ** Resize *)

(** C8. Resize on a vector whose elements lie inside its buffer: a smaller
    size is only written to [size_] (capacity, buffer and the remaining
    elements untouched); otherwise the first [size_] elements are kept in
    order, the indices from the old size up to [new_size] hold
    value-initialised elements, and size and capacity are both exactly
    [new_size]. *)
Theorem Resize_spec (s : State T) (new_size : Z) :
  backed s → fuse s = None → 0 ≤ new_size →
  ∃ s', Resize new_size s = Ret tt s' ∧ resized s new_size s'.
Proof.
  intros [Hbuf Hsize _] Hfuse Hnew.
  unfold Resize. members.
  destruct (Z.ltb_spec new_size (size_ (this s))) as [Hshrink|Hgrow].
  - eexists. split; [reflexivity|].
    split; cbn; try done.
    destruct (Z.ltb_spec new_size (size_ (this s))); [|lia].
    repeat split. unfold elements, slots. cbn.
    rewrite take_take. f_equal. lia.
  - destruct (relocate_ok s new_size new_size new_size
                (λ copy, set_size new_size ;; set_capacity new_size ;;
                         ArrayPtr_dtor copy)
                (destroy_and_rethrow) ltac:(by intros; members) Hbuf Hfuse
                Hsize Hgrow)
      as (s' & Hrun & Hbuf' & _ & Hfl & Hsz & Hcap & Hsl).
    exists s'. split; [exact Hrun|].
    assert (length (elements s) = Z.to_nat (size_ (this s))) as Hlen.
    { unfold elements. rewrite length_take. lia. }
    assert (length (slots s') = Z.to_nat new_size) as Hlen'.
    { rewrite Hsl, length_app, length_replicate, Hlen. lia. }
    split; try done.
    destruct (Z.ltb_spec new_size (size_ (this s))); [lia|].
    repeat split; [done|lia|].
    unfold elements at 1. rewrite Hsz, take_ge by lia. done.
Qed.

(** ** Erase *)

(** The replacement buffer Erase fills: the elements before index [k],
    then the elements after it. *)
Lemma erase_layout (src src' : list T) (n k : nat) x :
  (k < n ≤ length src)%nat →
  drop (S k) src' = drop (S k) src →
  take (n - 1)
    (list_inserts k (take (n - S k) (drop (S k) src'))
       (list_inserts 0 (take k (drop 0 src)) (replicate n x)))
  = delete k (take n src).
Proof.
  intros Hk Hsrc'. rewrite Hsrc', drop_0. apply list_eq. intros i.
  destruct (decide (i < n - 1)%nat) as [Hi|Hi].
  - rewrite lookup_take_lt by done.
    destruct (decide (i < k)%nat) as [Hik|Hik].
    + rewrite list_lookup_inserts_lt by done.
      rewrite list_lookup_inserts
        by (rewrite ?length_take, ?length_replicate; lia).
      rewrite list_lookup_delete_lt by done.
      rewrite !lookup_take_lt by lia. f_equal. lia.
    + rewrite list_lookup_inserts
        by (rewrite ?length_inserts, ?length_take, ?length_drop,
              ?length_replicate; lia).
      rewrite list_lookup_delete_ge by lia.
      rewrite !lookup_take_lt by lia.
      rewrite lookup_drop. f_equal. lia.
  - rewrite lookup_take_ge by lia.
    symmetry. apply lookup_ge_None.
    rewrite length_delete; rewrite ?length_take; [lia|].
    apply lookup_lt_is_Some. rewrite length_take. lia.
Qed.

Lemma Erase_run (s : State T) (k : Z) :
  backed s → fuse s = None → 0 ≤ k < size_ (this s) →
  ∃ r s', Erase (ptr_add (begin_of (this s)) k) s = Ret r s' ∧ erased s k r s'.
Proof.
  intros [Hbuf Hsize Hrange] Hfuse Hk.
  destruct (buffer_cases s Hbuf) as [[Hd Hsl]|(l & Hd & Hl)];
    unfold elements; clear Hbuf; set (src := slots s) in *; clearbody src;
    destruct s as [[d n cap] h f fl]; cbn in *; subst f d.
  { subst src. cbn in Hsize. lia. }
  set (l' := fresh (dom h)).
  assert (h !! l' = None) as Hfresh by apply fresh_block_free.
  assert (l ≠ l') as Hne by (intros ->; congruence).
  unfold Erase, begin_of. members.
  unfold distance, ptr_add. cbn [off base].
  destruct (Z.ltb_spec (0 + k - 0) (0 + n - 0)) as [_|]; [|lia].
  members.
  rewrite (bind_Ret _ _ _ _ _ (ArrayPtr_sized_ok n _ h fl ltac:(lia))).
  fold l'.
  erewrite try_catch_Ret; [eexists _, _; split; [reflexivity|]|].
  2:{ members.
      unfold std_move, distance, ptr_add. cbn [off base].
      replace (0 + k - 0) with k by lia.
      rewrite (wrap_small k) by lia.
      replace (0 + k - 0) with k by lia.
      rewrite (bind_Ret _ _ _ _ _
        (move_loop_ok (Z.to_nat k) 0%nat 0%nat _ _ fl l l' src
           (replicate (Z.to_nat n) dflt) Hne
           ltac:(by rewrite lookup_insert_ne)
           ltac:(by rewrite lookup_insert_eq)
           ltac:(lia)
           ltac:(rewrite length_replicate; lia))).
      members.
      unfold ptr_add. cbn [off base].
      replace (Z.to_nat (0 + n - (0 + k + 1)))
        with (Z.to_nat n - S (Z.to_nat k))%nat by lia.
      replace (0 + k + 1) with (Z.of_nat (S (Z.to_nat k))) by lia.
      rewrite Nat.add_0_l.
      erewrite bind_Ret;
        [|apply move_loop_ok;
          [ exact Hne
          | apply lookup_insert_eq
          | rewrite lookup_insert_ne by done; apply lookup_insert_eq
          | rewrite length_inserts; lia
          | rewrite length_inserts, length_replicate; lia ]].
      members.
      rewrite (wrap_small (n - 1)) by lia.
      erewrite bind_Ret; [|by eapply ArrayPtr_dtor_ok, lookup_insert_eq].
      reflexivity. }
  cbn [base off].
  match goal with
  | |- erased _ _ _ (MkState _ (delete l (<[l := ?A]> (<[l' := ?B]> ?g))) _ _) =>
      assert (delete l (<[l := A]> (<[l' := B]> g)) !! l' = Some B) as Hlook
  end.
  { rewrite lookup_delete_ne by done.
    rewrite lookup_insert_ne by done. apply lookup_insert_eq. }
  assert (∀ (g : T → T) (B : list T),
            drop (S (Z.to_nat k)) (list_inserts 0 (g <$> take (Z.to_nat k) B) src)
            = drop (S (Z.to_nat k)) src) as Hdrop.
  { intros g B. apply list_eq. intros i. rewrite !lookup_drop.
    apply list_lookup_inserts_ge. rewrite length_fmap, length_take. lia. }
  split; cbn.
  - split; cbn.
    + eapply buffer_ok_block; [done|apply Hlook].
    + erewrite slots_block; [|done|apply Hlook].
      rewrite !length_inserts, length_replicate. lia.
    + lia.
  - done.
  - done.
  - erewrite slots_block; [|done|apply Hlook].
    rewrite !length_inserts, length_replicate. lia.
  - done.
  - unfold elements. cbn. erewrite slots_block; [|done|apply Hlook].
    erewrite (slots_block _ _ _ _ _ _ l src); [|done|done].
    replace (Z.to_nat (n - 1)) with (Z.to_nat n - 1)%nat by lia.
    apply erase_layout; [lia|].
    rewrite drop_0. apply Hdrop.
  - done.
  - intros ->. unfold end_of, ArrayPtr_index, ptr_add. cbn. done.
Qed.

(** C9. Erase at the index [k] of an element, on a vector whose elements
    lie inside its buffer: exactly that element is removed, every later
    element is one index lower, all other elements keep their values, the
    size is one less, and the position returned is that of index [k] in
    the buffer the vector now holds, which is [end()] when the last
    element was erased. *)
Theorem Erase_spec (s : State T) (k : Z) :
  backed s → fuse s = None → 0 ≤ k < size_ (this s) →
  ∃ r s', Erase (ptr_add (begin_of (this s)) k) s = Ret r s' ∧
          faults s' = faults s ∧
          elements s' = delete (Z.to_nat k) (elements s) ∧
          GetSize (this s') = GetSize (this s) - 1 ∧
          r = ptr_add (begin_of (this s')) k ∧
          (k = GetSize (this s) - 1 → r = end_of (this s')).
Proof.
  intros Hbacked Hfuse Hk.
  destruct (Erase_run s k Hbacked Hfuse Hk) as (r & s' & Hrun & Hpost).
  exists r, s'. destruct Hpost. by repeat split.
Qed.

(** ** At *)

(** C10. At, in its mutable and its const form: it throws
    [std::out_of_range] exactly when [index >= GetSize()], and otherwise
    returns the address of the slot at [index]; the state is the same
    afterwards either way, and on a vector whose elements lie inside its
    buffer that slot holds the element at [index]. *)
Theorem At_spec (s : State T) (index : Z) :
  (At index s = Throw out_of_range s ↔ GetSize (this s) ≤ index) ∧
  (At_const index s = Throw out_of_range s ↔ GetSize (this s) ≤ index) ∧
  (At index s = Ret (subscript (this s) index) s ↔ index < GetSize (this s)) ∧
  (At_const index s = Ret (subscript (this s) index) s ↔ index < GetSize (this s)) ∧
  (backed s → 0 ≤ index < GetSize (this s) →
   ∃ x, elements s !! Z.to_nat index = Some x ∧
        load (subscript (this s) index) s = Ret x s).
Proof.
  unfold At, At_const, GetSize, subscript.
  repeat split; members;
    try (destruct (Z.geb_spec index (size_ (this s))); first [done | lia]).
  intros [Hbuf Hsize _] Hindex.
  destruct (buffer_cases s Hbuf) as [[Hd Hsl]|(l & Hd & Hl)];
    unfold elements; clear Hbuf; set (src := slots s) in *; clearbody src;
    destruct s as [[d n cap] h f fl]; cbn in *; subst d.
  { subst src. cbn in Hsize. lia. }
  destruct (lookup_lt_is_Some_2 src (Z.to_nat index) ltac:(lia)) as [x Hx].
  exists x. split.
  - rewrite lookup_take_lt by lia. done.
  - unfold ptr_add. cbn.
    replace (0 + index) with (Z.of_nat (Z.to_nat index)) by lia.
    by eapply load_ok.
Qed.

(** ** Move construction and move assignment of the vector *)

(** C6, as the code has it. The move constructor gives the new vector the
    buffer, size and capacity of [other] and leaves [other] empty. Move
    assignment from another vector exchanges the members: the target gets
    the buffer, size and capacity of the source, the source gets those the
    target had. Assigning a vector to itself changes nothing. No element
    is touched. *)
Theorem move_spec (s : State T) (other : SimpleVector) :
  SimpleVector_move other s = Ret empty_vector (with_this other s) ∧
  move_assign (Other other) s = Ret (Other (this s)) (with_this other s) ∧
  move_assign Self s = Ret Self s.
Proof.
  destruct s as [[[p] n cap] h f fl], other as [[q] m mcap].
  repeat split.
Qed.

(** ** The copy overload of Insert *)

Lemma store_outside v h f fl l blk (i : nat) x :
  h !! l = Some blk → (length blk ≤ i)%nat →
  store (Ptr (Some l) (Z.of_nat i)) x (MkState v h f fl)
  = Ret tt (MkState v h f (BadAccess (Ptr (Some l) (Z.of_nat i)) :: fl)).
Proof.
  intros Hl Hi. unfold store. cbn. rewrite Hl.
  destruct (Z.ltb_spec (Z.of_nat i) (Z.of_nat (length blk))); [lia|].
  by rewrite andb_false_r.
Qed.

Lemma assign_outside v h fl l blk (i : nat) x :
  h !! l = Some blk → (length blk ≤ i)%nat →
  assign (Ptr (Some l) (Z.of_nat i)) x (MkState v h None fl)
  = Ret tt (MkState v h None (BadAccess (Ptr (Some l) (Z.of_nat i)) :: fl)).
Proof.
  intros Hl Hi. unfold assign.
  rewrite (bind_Ret _ _ _ _ _ (tick_ok v h fl)). by eapply store_outside.
Qed.

Lemma insert_after_inserts (k blk : list T) (i e : nat) x :
  (i + length k ≤ e)%nat →
  list_inserts i k (<[e := x]> blk) = <[e := x]> (list_inserts i k blk).
Proof.
  intros Hle. apply list_eq. intros j.
  destruct (decide (j = e)) as [->|Hne].
  - rewrite list_lookup_inserts_ge by lia.
    destruct (decide (e < length blk)%nat).
    + by rewrite !list_lookup_insert_eq by (rewrite ?length_inserts; lia).
    + rewrite !list_insert_ge by (rewrite ?length_inserts; lia).
      by rewrite list_lookup_inserts_ge by lia.
  - rewrite (list_lookup_insert_ne (list_inserts i k blk)) by done.
    destruct (decide (j < i)%nat).
    { rewrite !list_lookup_inserts_lt by done. by rewrite list_lookup_insert_ne. }
    destruct (decide (i + length k ≤ j)%nat).
    { rewrite !list_lookup_inserts_ge by done. by rewrite list_lookup_insert_ne. }
    destruct (decide (j < length blk)%nat).
    + by rewrite !list_lookup_inserts by (rewrite ?length_insert; lia).
    + rewrite !lookup_ge_None_2
        by (rewrite ?length_inserts, ?length_insert; lia). done.
Qed.

(** [std::copy_backward] inside one block, one slot towards the end: the
    [n] slots below index [e] arrive one index higher. *)
Lemma copy_backward_loop_ok n : ∀ (e : nat) v h fl l blk,
  h !! l = Some blk → (n ≤ e)%nat → (e < length blk)%nat →
  copy_backward_loop n (Ptr (Some l) (Z.of_nat e)) (Ptr (Some l) (Z.of_nat (S e)))
    (MkState v h None fl)
  = Ret (Ptr (Some l) (Z.of_nat (S e - n)))
      (MkState v
         (<[l := list_inserts (S e - n) (take n (drop (e - n) blk)) blk]> h)
         None fl).
Proof.
  induction n as [|n IH]; intros e v h fl l blk Hl Hn He.
  - cbn. unfold ret. rewrite Nat.sub_0_r. by rewrite insert_id.
  - destruct e as [|e]; [lia|].
    destruct (lookup_lt_is_Some_2 blk e ltac:(lia)) as [x Hx].
    cbn [copy_backward_loop]. rewrite !ptr_sub_block.
    rewrite (bind_Ret _ _ _ _ _ (load_ok v h None fl l blk e x Hl Hx)).
    rewrite (bind_Ret _ _ _ _ _ (assign_ok v h fl l blk (S e) x Hl ltac:(lia))).
    rewrite (IH e v _ fl l (<[S e := x]> blk)
               ltac:(apply lookup_insert_eq) ltac:(lia)
               ltac:(rewrite length_insert; lia)).
    rewrite insert_insert_eq.
    replace (S (S e) - S n)%nat with (S e - n)%nat by lia.
    replace (S e - S n)%nat with (e - n)%nat by lia.
    do 3 f_equal.
    rewrite drop_insert_ge, take_insert_ge by lia.
    rewrite insert_after_inserts by (rewrite length_take, length_drop; lia).
    erewrite (take_S_r (drop (e - n) blk) n x)
      by (rewrite lookup_drop; rewrite <-Hx; f_equal; lia).
    rewrite list_inserts_app_l. cbn [list_inserts].
    f_equal. rewrite length_take, length_drop. lia.
Qed.

Lemma bind_assert_position {B} (k : unit → M T B) pos (s : State T) :
  distance (begin_of (this s)) pos
  ≤ distance (begin_of (this s)) (end_of (this s)) →
  bind (assert_position pos) k s = k tt s.
Proof.
  intros Hle. unfold assert_position, bind, begin_, end_, get_this, ret. cbn.
  by destruct (Z.leb_spec (distance (begin_of (this s)) pos)
                 (distance (begin_of (this s)) (end_of (this s)))); [|lia].
Qed.

(** The shift SeсureInsert asks for, from index [k] to the end at index
    [n]: when the buffer has no slot at index [n] the first store falls
    outside it. *)
Lemma shift_run v h fl l blk (k n : nat) :
  h !! l = Some blk → (k < n ≤ length blk)%nat →
  ∃ blk', length blk' = length blk ∧
    copy_backward_loop (n - k) (Ptr (Some l) (Z.of_nat n)) (Ptr (Some l) (Z.of_nat (S n)))
      (MkState v h None fl)
    = Ret (Ptr (Some l) (Z.of_nat (S k)))
        (MkState v (<[l := blk']> h) None
           (if decide (n < length blk)%nat then fl
            else BadAccess (Ptr (Some l) (Z.of_nat n)) :: fl)).
Proof.
  intros Hl Hk. destruct (decide (n < length blk)%nat) as [Hroom|Hfull].
  - eexists. split;
      [|rewrite (copy_backward_loop_ok (n - k) n v h fl l blk Hl) by lia].
    2:{ do 3 f_equal. lia. }
    by rewrite length_inserts.
  - destruct n as [|n]; [lia|].
    replace (S n - k)%nat with (S (n - k)) by lia.
    destruct (lookup_lt_is_Some_2 blk n ltac:(lia)) as [x Hx].
    cbn [copy_backward_loop]. rewrite !ptr_sub_block.
    rewrite (bind_Ret _ _ _ _ _ (load_ok v h None fl l blk n x Hl Hx)).
    rewrite (bind_Ret _ _ _ _ _
      (assign_outside v h fl l blk (S n) x Hl ltac:(lia))).
    eexists. split;
      [|rewrite (copy_backward_loop_ok (n - k) n v h _ l blk Hl) by lia].
    2:{ do 3 f_equal. lia. }
    by rewrite length_inserts.
Qed.

(** SeсureInsert, copy overload, before the end of a vector with a live
    buffer: it returns the position of index [k] in a fresh buffer of
    [capacity_] value-initialised slots, which is the buffer the vector
    holds afterwards; the size is one more. *)
Lemma SecureInsert_copy_run n cap h fl l blk (k : Z) value :
  h !! l = Some blk →
  0 ≤ k < n → n ≤ Z.of_nat (length blk) → 0 < cap → n + 1 < size_t_modulus →
  ∃ h',
    SecureInsert_copy (Ptr (Some l) k) (Local value)
      (MkState (MkSimpleVector (MkArrayPtr (Ptr (Some l) 0)) n cap) h None fl)
    = Ret (Ptr (Some (fresh (dom h))) k)
        (MkState (MkSimpleVector (MkArrayPtr (Ptr (Some (fresh (dom h))) 0)) (n + 1) cap)
           h' None
           (if decide (n < Z.of_nat (length blk)) then fl
            else BadAccess (Ptr (Some l) n) :: fl)) ∧
    h' !! fresh (dom h) = Some (replicate (Z.to_nat cap) dflt).
Proof.
  intros Hl Hk Hn Hcap Hrange.
  set (l' := fresh (dom h)).
  assert (h !! l' = None) as Hfresh by apply fresh_block_free.
  assert (l ≠ l') as Hne by (intros ->; congruence).
  destruct (shift_run (MkSimpleVector (MkArrayPtr (Ptr (Some l) 0)) n cap)
              (<[l' := replicate (Z.to_nat cap) dflt]> h) fl l blk
              (Z.to_nat k) (Z.to_nat n)
              ltac:(by rewrite lookup_insert_ne) ltac:(lia))
    as (blk' & Hlen & Hshift).
  unfold SecureInsert_copy.
  rewrite bind_assert_position by (cbn; unfold distance; cbn; lia).
  members.
  rewrite (bind_Ret _ _ _ _ _ (ArrayPtr_sized_ok cap _ h fl Hcap)).
  fold l'.
  erewrite try_catch_Ret.
  2:{ members.
      unfold std_copy_backward, distance, ptr_add. cbn [off base].
      replace (k - 0) with k by lia. rewrite (wrap_small k) by lia.
      replace (Z.to_nat (0 + n - (0 + k))) with (Z.to_nat n - Z.to_nat k)%nat by lia.
      replace (0 + n + 1) with (Z.of_nat (S (Z.to_nat n))) by lia.
      replace (0 + n) with (Z.of_nat (Z.to_nat n)) by lia.
      rewrite (bind_Ret _ _ _ _ _ Hshift).
      replace (0 + k) with (Z.of_nat (Z.to_nat k)) by lia.
      rewrite assign_from_Local.
      erewrite bind_Ret;
        [|apply (assign_ok _ _ _ l blk'); [apply lookup_insert_eq|lia]].
      members.
      rewrite (wrap_small (n + 1)) by lia.
      erewrite bind_Ret; [|by eapply ArrayPtr_dtor_ok, lookup_insert_eq].
      reflexivity. }
  cbn [base off]. eexists. split.
  - do 2 f_equal.
    repeat case_decide; try lia; try done.
    do 3 f_equal; lia.
  - rewrite lookup_delete_ne by done.
    rewrite !lookup_insert_ne by done. apply lookup_insert_eq.
Qed.

Lemma ptr_eqb_other_offset l (i j : Z) :
  i ≠ j → ptr_eqb (Ptr (Some l) i) (Ptr (Some l) j) = false.
Proof. intros Hne. apply bool_decide_eq_false_2. congruence. Qed.

(** The copy overload of Insert before the end of a vector with spare
    capacity, whatever the vector and the value: every slot of the buffer
    the vector holds afterwards is value-initialised. *)
Lemma Insert_copy_roomy_run (s : State T) (k : Z) value :
  valid s → fuse s = None →
  0 ≤ k < size_ (this s) → size_ (this s) < capacity_ (this s) →
  ∃ r s', Insert_copy (ptr_add (begin_of (this s)) k) (Local value) s = Ret r s' ∧
          faults s' = faults s ∧
          size_ (this s') = size_ (this s) + 1 ∧
          capacity_ (this s') = capacity_ (this s) ∧
          slots s' = replicate (Z.to_nat (capacity_ (this s))) dflt ∧
          r = ptr_add (begin_of (this s')) k.
Proof.
  intros [Hbuf Hcap Hsize Hrange] Hfuse Hk Hroom.
  destruct (buffer_cases s Hbuf) as [[Hd Hsl]|(l & Hd & Hl)];
    clear Hbuf; set (src := slots s) in *; clearbody src;
    destruct s as [[d n cap] h f fl]; cbn in *; subst f d.
  { subst src. cbn in Hcap. lia. }
  unfold Insert_copy.
  rewrite bind_assert_position by (cbn; unfold distance; cbn; lia).
  members. unfold ptr_add. cbn [base off].
  rewrite ptr_eqb_other_offset by lia. members.
  destruct (Z.ltb_spec n cap) as [_|]; [|lia].
  destruct (SecureInsert_copy_run n cap h fl l src k value Hl)
    as (h' & Hrun & Hlook); [lia..|].
  change (0 + k) with k. rewrite Hrun.
  eexists _, _. split; [reflexivity|]. cbn.
  split; [by case_decide; [|lia]|].
  repeat split. by erewrite slots_block.
Qed.

(** The copy overload of Insert before the end of a full vector, whatever
    the vector and the value: Resize has already counted the new element
    when SeсureInsert counts it again, and the shift starts one slot past
    the buffer. *)
Lemma Insert_copy_full_run (s : State T) (k : Z) value :
  valid s → fuse s = None →
  0 ≤ k < size_ (this s) → size_ (this s) = capacity_ (this s) →
  size_ (this s) + 2 < size_t_modulus →
  ∃ r s' p, Insert_copy (ptr_add (begin_of (this s)) k) (Local value) s
            = Ret r s' ∧
            faults s' = BadAccess p :: faults s ∧
            size_ (this s') = size_ (this s) + 2 ∧
            capacity_ (this s') = size_ (this s) + 1 ∧
            slots s' = replicate (Z.to_nat (size_ (this s) + 1)) dflt.
Proof.
  intros [Hbuf Hcap Hsize Hrange] Hfuse Hk Hfull Hfit.
  destruct (relocate_ok s (size_ (this s) + 1) (size_ (this s) + 1) (size_ (this s) + 1)
              (λ copy, set_size (size_ (this s) + 1) ;;
                       set_capacity (size_ (this s) + 1) ;;
                       ArrayPtr_dtor copy)
              (destroy_and_rethrow) ltac:(by intros; members) Hbuf Hfuse
              ltac:(lia) ltac:(lia))
    as (s1 & Hrun1 & Hbuf1 & Hfuse1 & Hfl1 & Hsz1 & Hcap1 & Hsl1).
  assert (Z.of_nat (length (slots s1)) = size_ (this s) + 1) as Hlen1.
  { rewrite Hsl1, length_app, length_replicate. unfold elements.
    rewrite length_take. lia. }
  assert (Resize (size_ (this s) + 1) s = Ret tt s1) as HResize.
  { unfold Resize. members.
    by destruct (Z.ltb_spec (size_ (this s) + 1) (size_ (this s))); [lia|]. }
  destruct (buffer_cases s1 Hbuf1) as [[Hd1 Hnull]|(l1 & Hd1 & Hl1)].
  { rewrite Hnull in Hlen1. cbn in Hlen1. lia. }
  clear Hbuf1 Hsl1. set (blk1 := slots s1) in *. clearbody blk1.
  destruct (buffer_cases s Hbuf) as [[Hd Hsl]|(l & Hd & Hl)].
  { rewrite Hsl in Hcap. cbn in Hcap. lia. }
  destruct s1 as [[d1 n1 cap1] h1 f1 fl1]; cbn in *; subst f1 fl1 n1 cap1 d1.
  destruct s as [[d n cap] h f fl]; cbn in *; subst f d cap.
  unfold Insert_copy.
  rewrite bind_assert_position by (cbn; unfold distance; cbn; lia).
  members. unfold ptr_add at 1 2. cbn [base off].
  rewrite ptr_eqb_other_offset by lia. members.
  destruct (Z.ltb_spec n n) as [|_]; [lia|].
  members. unfold distance, ptr_add. cbn [base off].
  replace (0 + k - 0) with k by lia.
  rewrite (wrap_small k), (wrap_small (n + 1)) by lia.
  rewrite (bind_Ret _ _ _ _ _ HResize). members.
  destruct (SecureInsert_copy_run (n + 1) (n + 1) h1 fl l1 blk1 k value Hl1)
    as (h' & Hrun & Hlook); [lia..|].
  unfold ptr_add. cbn [base off]. change (0 + k) with k. rewrite Hrun.
  eexists _, _, _. split; [reflexivity|]. cbn.
  split; [by case_decide; [lia|]|].
  repeat split; [lia|]. by erewrite slots_block.
Qed.

(** ** Erase and the capacity *)

(** Erase on a vector with spare capacity, whatever the vector:
    [capacity_] keeps its value and is more than the number of slots of
    the buffer the vector holds afterwards. *)
Lemma Erase_capacity_mismatch (s : State T) (k : Z) :
  backed s → fuse s = None → 0 ≤ k < size_ (this s) →
  size_ (this s) < capacity_ (this s) →
  ∃ r s', Erase (ptr_add (begin_of (this s)) k) s = Ret r s' ∧
          faults s' = faults s ∧
          Z.of_nat (length (slots s')) < GetCapacity (this s').
Proof.
  intros Hbacked Hfuse Hk Hroom.
  destruct (Erase_run s k Hbacked Hfuse Hk) as (r & s' & Hrun & Hpost).
  exists r, s'. destruct Hpost as [_ Hfl Hcap Hslots _ _ _ _].
  unfold GetCapacity. repeat split; [done..|lia].
Qed.

(** ** Moving an ArrayPtr *)

(** Neither the move constructor nor move assignment writes to the
    source. *)
Lemma ArrayPtr_move_source_unchanged (a b : ArrayPtr) :
  snd (ArrayPtr_move_ctor a) = a ∧
  raw_ptr_ (fst (ArrayPtr_move_ctor a)) = raw_ptr_ a ∧
  snd (ArrayPtr_move_assign b (Other a)) = Other a ∧
  raw_ptr_ (fst (ArrayPtr_move_assign b (Other a))) = raw_ptr_ a ∧
  ArrayPtr_move_assign b Self = (b, Self).
Proof. by destruct a, b. Qed.

(** * Further properties of the two headers *)

(** ** ArrayPtr: construction, destruction, Release *)

(** X1. [ArrayPtr(size)] when no element operation throws: for [size == 0]
    nothing is allocated and the object is null (it converts to [false]);
    otherwise the object owns a block that was not live before, of exactly
    [size] value-initialised slots, and converts to [true]. The blocks
    that were live stay as they are. *)
Theorem ArrayPtr_sized_spec (s : State T) (size : Z) :
  fuse s = None → 0 ≤ size →
  ∃ a s', ArrayPtr_sized size s = Ret a s' ∧
    this s' = this s ∧ fuse s' = None ∧ faults s' = faults s ∧
    heap s ⊆ heap s' ∧
    (ArrayPtr_bool a = true ↔ size ≠ 0) ∧
    (size = 0 → a = MkArrayPtr nullptr ∧ heap s' = heap s) ∧
    (0 < size →
     block_at (heap s) (raw_ptr_ a) = None ∧
     block_at (heap s') (raw_ptr_ a) = Some (replicate (Z.to_nat size) dflt)).
Proof.
  intros Hfuse Hsize. destruct s as [v h f fl]. cbn in *. subst f.
  destruct (Z.eq_dec size 0) as [->|Hne].
  - eexists _, _. split; [apply ArrayPtr_sized_zero|]. cbn.
    repeat split; try done; lia.
  - eexists _, _. split; [apply ArrayPtr_sized_ok; lia|]. cbn.
    repeat split; try done.
    + apply insert_subseteq, fresh_block_free.
    + unfold block_at. cbn. apply fresh_block_free.
    + unfold block_at. cbn. apply lookup_insert_eq.
Qed.

(** X2. Building an ArrayPtr and destroying it gives back the state
    before, whatever the size: the block is freed once and nothing else
    changes. *)
Theorem ArrayPtr_sized_dtor (s : State T) (size : Z) :
  fuse s = None → 0 ≤ size →
  (a <- ArrayPtr_sized size ;; ArrayPtr_dtor a) s = Ret tt s.
Proof.
  intros Hfuse Hsize. destruct s as [v h f fl]. cbn in *. subst f.
  destruct (Z.eq_dec size 0) as [->|Hne].
  - by rewrite (bind_Ret _ _ _ _ _ (ArrayPtr_sized_zero _)).
  - rewrite (bind_Ret _ _ _ _ _ (ArrayPtr_sized_ok size v h fl ltac:(lia))).
    erewrite ArrayPtr_dtor_ok by apply lookup_insert_eq.
    by rewrite delete_insert_id by apply fresh_block_free.
Qed.

(** X3. Release hands the buffer to the caller: it returns the pointer
    held, the object is null afterwards (it converts to [false]) and its
    destructor frees nothing; adopting the returned pointer in a second
    ArrayPtr gives an object equal to the first, and destroying both
    frees the block exactly once. *)
Theorem ArrayPtr_Release_spec (s : State T) (a : ArrayPtr) l blk :
  raw_ptr_ a = Ptr (Some l) 0 → heap s !! l = Some blk →
  fst (ArrayPtr_Release a) = raw_ptr_ a ∧
  ArrayPtr_bool (snd (ArrayPtr_Release a)) = false ∧
  ArrayPtr_adopt (fst (ArrayPtr_Release a)) = a ∧
  ArrayPtr_dtor (snd (ArrayPtr_Release a)) s = Ret tt s ∧
  (ArrayPtr_dtor (snd (ArrayPtr_Release a)) ;;
   ArrayPtr_dtor (ArrayPtr_adopt (fst (ArrayPtr_Release a)))) s
  = Ret tt (with_heap (delete l (heap s)) s).
Proof.
  intros Ha Hl. destruct a as [p], s as [v h f fl]. cbn in *. subst p.
  repeat split.
  rewrite (bind_Ret _ _ _ _ _ (ArrayPtr_dtor_null _)).
  by erewrite ArrayPtr_dtor_ok.
Qed.

(** X25. Two ArrayPtr objects that own two different live blocks.
    After [swap] each block still has one owner, the two pointers are
    exchanged, a second [swap] restores both objects, and destroying both
    frees the two blocks with nothing undefined. After the move
    assignment [a = std::move(b)] both objects hold the block of [b]:
    destroying both deletes that block twice and the block [a] owned is
    never freed. *)
Theorem ArrayPtr_swap_spec (s : State T) (a b : ArrayPtr) la lb blka blkb :
  raw_ptr_ a = Ptr (Some la) 0 → raw_ptr_ b = Ptr (Some lb) 0 → la ≠ lb →
  heap s !! la = Some blka → heap s !! lb = Some blkb →
  ArrayPtr_swap a b = (b, a) ∧
  ArrayPtr_swap (fst (ArrayPtr_swap a b)) (snd (ArrayPtr_swap a b)) = (a, b) ∧
  (ArrayPtr_dtor (fst (ArrayPtr_swap a b)) ;;
   ArrayPtr_dtor (snd (ArrayPtr_swap a b))) s
  = Ret tt (with_heap (delete la (delete lb (heap s))) s) ∧
  (ArrayPtr_dtor (fst (ArrayPtr_move_assign a (Other b))) ;; ArrayPtr_dtor b) s
  = Ret tt (add_fault (BadDelete (raw_ptr_ b))
              (with_heap (delete lb (heap s)) s)) ∧
  delete lb (heap s) !! la = Some blka.
Proof.
  intros Ha Hb Hne Hla Hlb. destruct a as [pa], b as [pb], s as [v h f fl].
  cbn in *. subst pa pb.
  split; [done|]. split; [done|]. split; [|split].
  - unfold ArrayPtr_swap. cbn [fst snd raw_ptr_].
    rewrite (bind_Ret _ _ _ _ _ (ArrayPtr_dtor_ok v h f fl lb blkb Hlb)).
    by rewrite (ArrayPtr_dtor_ok v _ f fl la blka)
      by (by rewrite lookup_delete_ne).
  - unfold ArrayPtr_move_assign, ArrayPtr_Get. cbn [fst snd raw_ptr_].
    rewrite (bind_Ret _ _ _ _ _ (ArrayPtr_dtor_ok v h f fl lb blkb Hlb)).
    unfold ArrayPtr_dtor, delete_array. cbn.
    by rewrite lookup_delete_eq.
  - by rewrite lookup_delete_ne.
Qed.

(** ** Reserve *)

Lemma elements_length (s : State T) :
  0 ≤ size_ (this s) ≤ Z.of_nat (length (slots s)) →
  length (elements s) = Z.to_nat (size_ (this s)).
Proof. intros Hsize. unfold elements. rewrite length_take. lia. Qed.

(** X4. Reserve on a vector that obeys the invariants of the data model:
    a request of no more than the capacity changes nothing at all; a
    larger one makes the capacity exactly the request, in a buffer of that
    many slots; either way the size and the elements are the same and the
    invariants hold afterwards. *)
Theorem Reserve_spec (s : State T) (new_capacity : Z) :
  valid s → fuse s = None → new_capacity < size_t_modulus →
  ∃ s', Reserve new_capacity s = Ret tt s' ∧
        valid s' ∧ faults s' = faults s ∧
        GetSize (this s') = GetSize (this s) ∧
        elements s' = elements s ∧
        GetCapacity (this s') = Z.max (GetCapacity (this s)) new_capacity ∧
        (new_capacity ≤ GetCapacity (this s) → s' = s).
Proof.
  intros Hvalid Hfuse Hrange. unfold GetSize, GetCapacity.
  destruct (Z.le_gt_cases new_capacity (capacity_ (this s))) as [Hle|Hgt].
  - exists s. split; [by apply Reserve_noop|].
    split; [done|]. repeat split; try done. lia.
  - destruct Hvalid as [Hbuf Hcap Hsize _].
    destruct (Reserve_grow s new_capacity Hbuf Hfuse ltac:(lia) ltac:(lia) ltac:(lia))
      as (s' & Hrun & Hbuf' & _ & Hfl & Hsz & Hcap' & Hsl).
    pose proof (elements_length s ltac:(lia)) as Hlen.
    exists s'. split; [done|].
    repeat split; try done; try lia.
    + rewrite Hsl, length_app, length_replicate, Hlen. lia.
    + unfold elements at 1. rewrite Hsz, Hsl.
      by rewrite take_app_length' by done.
Qed.

(** ** Constructors *)

(** Reserve on an object that has just got its default members. *)
Lemma Reserve_from_empty h fl (new_capacity : Z) :
  0 < new_capacity →
  Reserve new_capacity (MkState empty_vector h None fl)
  = Ret tt
      (MkState (MkSimpleVector (MkArrayPtr (Ptr (Some (fresh (dom h))) 0)) 0 new_capacity)
         (<[fresh (dom h) := replicate (Z.to_nat new_capacity) dflt]> h) None fl).
Proof.
  intros Hpos. unfold Reserve, empty_vector, ArrayPtr_default. members.
  destruct (Z.leb_spec new_capacity 0) as [|_]; [lia|].
  rewrite (bind_Ret _ _ _ _ _ (ArrayPtr_sized_ok new_capacity _ h fl Hpos)).
  erewrite try_catch_Ret; [reflexivity|].
  members. unfold std_move, distance. cbn [off ptr_add nullptr].
  change (Z.to_nat (0 + 0 - 0)) with 0%nat. cbn [move_loop].
  members. by rewrite ArrayPtr_dtor_null.
Qed.

Lemma inserts_all (k l : list T) :
  length k = length l → list_inserts 0 k l = k.
Proof.
  intros Hlen. rewrite <-(app_nil_r k) at 1. by apply list_inserts_0_l.
Qed.

(** X5. [SimpleVector(size)] when no element operation throws: the vector
    has size and capacity [size] and every element is value-initialised;
    for [size == 0] it has no buffer. The blocks that were live stay as
    they are. *)
Theorem SimpleVector_sized_spec (s : State T) (size : Z) :
  fuse s = None → 0 ≤ size < size_t_modulus →
  ∃ s', SimpleVector_sized size s = Ret tt s' ∧
        valid s' ∧ faults s' = faults s ∧ heap s ⊆ heap s' ∧
        GetSize (this s') = size ∧ GetCapacity (this s') = size ∧
        elements s' = replicate (Z.to_nat size) dflt ∧
        (size = 0 → this s' = empty_vector ∧ heap s' = heap s).
Proof.
  intros Hfuse Hsize. destruct s as [v h f fl]. cbn in *. subst f.
  unfold SimpleVector_sized, constructing. members.
  destruct (Z.eq_dec size 0) as [->|Hne].
  - erewrite try_catch_Ret; [|by rewrite (bind_Ret _ _ _ _ _ (Reserve_noop (MkState empty_vector h None fl) 0 ltac:(cbn; lia)))].
    eexists. split; [reflexivity|]. cbn.
    repeat split; try done. by left.
  - set (s' := MkState (MkSimpleVector (MkArrayPtr (Ptr (Some (fresh (dom h))) 0)) size size)
                 (<[fresh (dom h) := replicate (Z.to_nat size) dflt]> h) None fl).
    assert (slots s' = replicate (Z.to_nat size) dflt) as Hsl.
    { unfold s'. by erewrite slots_block; [|done|apply lookup_insert_eq]. }
    exists s'. split.
    { erewrite try_catch_Ret; [reflexivity|].
      by rewrite (bind_Ret _ _ _ _ _ (Reserve_from_empty h fl size ltac:(lia))). }
    repeat split; cbn; try done; try lia.
    + eapply buffer_ok_block; [done|apply lookup_insert_eq].
    + rewrite Hsl, length_replicate. lia.
    + apply insert_subseteq, fresh_block_free.
    + unfold elements. rewrite Hsl. cbn.
      by rewrite take_ge by (rewrite length_replicate; lia).
Qed.

(** X6. [SimpleVector(size, value)] when no element operation throws: size
    and capacity are [size] and every element is [value]. *)
Theorem SimpleVector_filled_spec (s : State T) (size : Z) (value : T) :
  fuse s = None → 0 ≤ size < size_t_modulus →
  ∃ s', SimpleVector_filled size value s = Ret tt s' ∧
        valid s' ∧ faults s' = faults s ∧ heap s ⊆ heap s' ∧
        GetSize (this s') = size ∧ GetCapacity (this s') = size ∧
        elements s' = replicate (Z.to_nat size) value.
Proof.
  intros Hfuse Hsize. destruct s as [v h f fl]. cbn in *. subst f.
  unfold SimpleVector_filled, constructing. members.
  destruct (Z.eq_dec size 0) as [->|Hne].
  - erewrite try_catch_Ret;
      [|by rewrite (bind_Ret _ _ _ _ _ (Reserve_noop (MkState empty_vector h None fl) 0 ltac:(cbn; lia)))].
    eexists. split; [reflexivity|]. cbn.
    repeat split; try done. by left.
  - set (s' := MkState (MkSimpleVector (MkArrayPtr (Ptr (Some (fresh (dom h))) 0)) size size)
                 (<[fresh (dom h) := replicate (Z.to_nat size) value]> h) None fl).
    assert (slots s' = replicate (Z.to_nat size) value) as Hsl.
    { unfold s'. by erewrite slots_block; [|done|apply lookup_insert_eq]. }
    exists s'. split.
    { erewrite try_catch_Ret; [reflexivity|].
      rewrite (bind_Ret _ _ _ _ _ (Reserve_from_empty h fl size ltac:(lia))).
      members. unfold std_generate, distance, ptr_add. cbn [off base].
      replace (0 + size - 0) with size by lia.
      rewrite (generate_loop_ok (Z.to_nat size) 0%nat value _ _ fl (fresh (dom h))
                 (replicate (Z.to_nat size) dflt)
                 ltac:(apply lookup_insert_eq)
                 ltac:(rewrite length_replicate; lia)).
      by rewrite insert_insert_eq, inserts_all by (by rewrite !length_replicate). }
    repeat split; cbn; try done; try lia.
    + eapply buffer_ok_block; [done|apply lookup_insert_eq].
    + rewrite Hsl, length_replicate. lia.
    + apply insert_subseteq, fresh_block_free.
    + unfold elements. rewrite Hsl. cbn.
      by rewrite take_ge by (rewrite length_replicate; lia).
Qed.

Lemma move_from_list_ok init : ∀ (b : nat) v h fl l blk,
  h !! l = Some blk → (b + length init ≤ length blk)%nat →
  move_from_list init (Ptr (Some l) (Z.of_nat b)) (MkState v h None fl)
  = Ret (Ptr (Some l) (Z.of_nat (b + length init)))
      (MkState v (<[l := list_inserts b init blk]> h) None fl).
Proof.
  induction init as [|x init IH]; intros b v h fl l blk Hl Hlen.
  - cbn. unfold ret. rewrite Nat.add_0_r. by rewrite insert_id.
  - cbn [move_from_list length] in *.
    rewrite (bind_Ret _ _ _ _ _ (assign_ok v h fl l blk b x Hl ltac:(lia))).
    rewrite ptr_add_block.
    rewrite (IH (S b) v _ fl l (<[b := x]> blk)
               ltac:(apply lookup_insert_eq) ltac:(rewrite length_insert; lia)).
    rewrite insert_insert_eq. cbn [list_inserts].
    rewrite list_insert_inserts_lt by lia.
    do 3 f_equal. lia.
Qed.

(** X7. The constructor from an initializer list when no element operation
    throws: the elements are those of the list in order, and size and
    capacity are its length; an empty list gives a vector without
    buffer. *)
Theorem SimpleVector_init_spec (s : State T) (init : list T) :
  fuse s = None → Z.of_nat (length init) < size_t_modulus →
  ∃ s', SimpleVector_init init s = Ret tt s' ∧
        valid s' ∧ faults s' = faults s ∧ heap s ⊆ heap s' ∧
        GetSize (this s') = Z.of_nat (length init) ∧
        GetCapacity (this s') = Z.of_nat (length init) ∧
        elements s' = init.
Proof.
  intros Hfuse Hsize. destruct s as [v h f fl]. cbn in *. subst f.
  unfold SimpleVector_init, constructing.
  destruct init as [|x init].
  - rewrite (bind_Ret _ _ _ _ _ (ArrayPtr_sized_zero _)). members.
    eexists. split; [reflexivity|]. cbn.
    repeat split; try done. by left.
  - set (init' := x :: init) in *.
    assert (0 < Z.of_nat (length init')) as Hpos by (cbn; lia).
    set (s' := MkState (MkSimpleVector (MkArrayPtr (Ptr (Some (fresh (dom h))) 0))
                          (Z.of_nat (length init')) (Z.of_nat (length init')))
                 (<[fresh (dom h) := init']> h) None fl).
    assert (slots s' = init') as Hsl.
    { unfold s'. by erewrite slots_block; [|done|apply lookup_insert_eq]. }
    exists s'. split.
    { rewrite (bind_Ret _ _ _ _ _ (ArrayPtr_sized_ok _ v h fl Hpos)). members.
      erewrite try_catch_Ret; [reflexivity|].
      members.
      rewrite (bind_Ret _ _ _ _ _
        (move_from_list_ok init' 0%nat _ _ fl (fresh (dom h))
           (replicate (Z.to_nat (Z.of_nat (length init'))) dflt)
           ltac:(apply lookup_insert_eq)
           ltac:(rewrite length_replicate; lia))).
      by rewrite insert_insert_eq, inserts_all by (rewrite length_replicate; lia). }
    clearbody init'.
    repeat split; cbn; try done; try lia.
    + eapply buffer_ok_block; [done|apply lookup_insert_eq].
    + by rewrite Hsl.
    + apply insert_subseteq, fresh_block_free.
    + unfold elements. rewrite Hsl. cbn.
      by rewrite take_ge by lia.
Qed.

(** X8. The constructor from a reserve hint when no element operation
    throws: size 0 and capacity exactly the hint; the first PushBack then
    stores in that buffer and leaves the capacity alone. *)
Theorem SimpleVector_reserved_spec (s : State T) (capacity_to_reserve : Z) (item : T) :
  fuse s = None → 0 < capacity_to_reserve < size_t_modulus →
  ∃ s' s'',
    SimpleVector_reserved capacity_to_reserve s = Ret tt s' ∧
    valid s' ∧ faults s' = faults s ∧ heap s ⊆ heap s' ∧
    GetSize (this s') = 0 ∧ GetCapacity (this s') = capacity_to_reserve ∧
    IsEmpty (this s') = true ∧
    PushBack_copy (Local item) s' = Ret tt s'' ∧
    data_ (this s'') = data_ (this s') ∧
    GetCapacity (this s'') = capacity_to_reserve ∧
    elements s'' = [item].
Proof.
  intros Hfuse Hcap. destruct s as [v h f fl]. cbn in *. subst f.
  set (s' := MkState (MkSimpleVector (MkArrayPtr (Ptr (Some (fresh (dom h))) 0))
                        0 capacity_to_reserve)
               (<[fresh (dom h) := replicate (Z.to_nat capacity_to_reserve) dflt]> h)
               None fl).
  assert (SimpleVector_reserved capacity_to_reserve (MkState v h None fl) = Ret tt s')
    as Hrun.
  { unfold SimpleVector_reserved, constructing. members.
    erewrite try_catch_Ret; [reflexivity|].
    by rewrite (bind_Ret _ _ _ _ _
                  (Reserve_from_empty h fl capacity_to_reserve ltac:(lia))). }
  assert (slots s' = replicate (Z.to_nat capacity_to_reserve) dflt) as Hsl.
  { unfold s'. by erewrite slots_block; [|done|apply lookup_insert_eq]. }
  assert (valid s') as Hvalid.
  { split; cbn; try lia.
    - eapply buffer_ok_block; [done|apply lookup_insert_eq].
    - rewrite Hsl, length_replicate. lia. }
  destruct (push_pattern s' item (0 + 1) (PushBack_copy (Local item)))
    as (s'' & Hpush & Hpost); [| done | done | cbn; lia | ].
  { unfold PushBack_copy. members.
    by destruct (Z.ltb_spec 0 capacity_to_reserve); [|lia]. }
  exists s', s''. destruct Hpost as [_ _ _ _ Hel Hcap'].
  cbn in Hcap'. destruct (Z.ltb_spec 0 capacity_to_reserve); [|lia].
  split; [done|]. split; [done|].
  repeat split; try done.
  - apply insert_subseteq, fresh_block_free.
  - apply Hcap'.
  - apply Hcap'.
Qed.

(** ** PopBack, Clear, swap *)

(** X9. PopBack on an empty vector fails its [assert]; on any other it
    only lowers the size by one: the last element is dropped, the
    capacity, the buffer and every slot stay as they are. *)
Theorem PopBack_spec (s : State T) :
  (GetSize (this s) = 0 → PopBack s = Aborted) ∧
  (0 < GetSize (this s) < size_t_modulus →
   ∃ s', PopBack s = Ret tt s' ∧
         GetSize (this s') = GetSize (this s) - 1 ∧
         GetCapacity (this s') = GetCapacity (this s) ∧
         data_ (this s') = data_ (this s) ∧ heap s' = heap s ∧
         faults s' = faults s ∧
         elements s' = take (Z.to_nat (GetSize (this s)) - 1) (elements s)).
Proof.
  unfold GetSize, GetCapacity. split.
  - intros Hzero. unfold PopBack. members. by rewrite Hzero.
  - intros Hsize. unfold PopBack. members.
    destruct (Z.eqb_spec (size_ (this s)) 0) as [|_]; [lia|].
    cbn [negb]. members. rewrite wrap_small by lia.
    eexists. split; [reflexivity|]. cbn.
    repeat split. unfold elements, slots. cbn.
    rewrite take_take. f_equal. lia.
Qed.


(** X11. Clear only writes [size_ = 0]: the vector is empty, the capacity,
    the buffer and its slots are untouched. A PushBack after it, when the
    capacity is not 0, stores in slot 0 of the same buffer without
    reallocating. *)
Theorem Clear_spec (s : State T) (item : T) :
  valid s → fuse s = None → 0 < GetCapacity (this s) →
  ∃ s' s'',
    Clear s = Ret tt s' ∧
    IsEmpty (this s') = true ∧ elements s' = [] ∧
    GetCapacity (this s') = GetCapacity (this s) ∧
    data_ (this s') = data_ (this s) ∧ heap s' = heap s ∧ slots s' = slots s ∧
    PushBack_copy (Local item) s' = Ret tt s'' ∧
    data_ (this s'') = data_ (this s) ∧
    GetCapacity (this s'') = GetCapacity (this s) ∧
    elements s'' = [item] ∧ faults s'' = faults s.
Proof.
  unfold GetCapacity. intros [Hbuf Hcap Hsize Hrange] Hfuse Hroom.
  set (s' := with_this (MkSimpleVector (data_ (this s)) 0 (capacity_ (this s))) s).
  assert (valid s') as Hvalid' by (split; cbn; try done; lia).
  destruct (push_pattern s' item (0 + 1) (PushBack_copy (Local item)))
    as (s'' & Hpush & Hpost); [| done | done | cbn; lia | ].
  { unfold PushBack_copy. members.
    by destruct (Z.ltb_spec 0 (capacity_ (this s))); [|lia]. }
  exists s', s''. destruct Hpost as [_ Hfl _ _ Hel Hcap'].
  cbn in Hcap'. destruct (Z.ltb_spec 0 (capacity_ (this s))); [|lia].
  split; [done|]. repeat split; try done; apply Hcap'.
Qed.

(** X12. The vector's swap exchanges buffer, size and capacity with the
    other vector and touches neither the free store nor any element;
    swapping twice gives back both vectors, and swapping a vector with
    itself does nothing. *)
Theorem swap_spec (s : State T) (other : SimpleVector) :
  swap (Other other) s = Ret (Other (this s)) (with_this other s) ∧
  (r <- swap (Other other) ;; swap r) s = Ret (Other other) s ∧
  swap Self s = Ret Self s.
Proof.
  destruct s as [[[p] n cap] h f fl], other as [[q] m mcap].
  repeat split.
Qed.

(** ** Insert at the end, and the positions the asserts refuse *)

Lemma ptr_eqb_refl (p : ptr) : ptr_eqb p p = true.
Proof. by apply bool_decide_eq_true_2. Qed.


Lemma assert_position_fails {B} (k : unit → M T B) pos (s : State T) :
  distance (begin_of (this s)) (end_of (this s))
  < distance (begin_of (this s)) pos →
  bind (assert_position pos) k s = Aborted.
Proof.
  intros Hlt. unfold assert_position, bind, begin_, end_, get_this, ret. cbn.
  by destruct (Z.leb_spec (distance (begin_of (this s)) pos)
                 (distance (begin_of (this s)) (end_of (this s)))); [lia|].
Qed.

(** X14. The positions the asserts refuse: Insert and SeсureInsert, in
    both overloads and whatever the copy overloads' reference refers to,
    stop on the [assert] for a position after [end()], and Erase stops on
    it for [end()] and for any position after it. *)
Theorem position_asserts (s : State T) (k : Z) (item : const_ref T) (value : T) :
  (GetSize (this s) < k →
   Insert_copy (ptr_add (begin_of (this s)) k) item s = Aborted ∧
   Insert_move (ptr_add (begin_of (this s)) k) value s = Aborted ∧
   SecureInsert_copy (ptr_add (begin_of (this s)) k) item s = Aborted ∧
   SecureInsert_move (ptr_add (begin_of (this s)) k) value s = Aborted) ∧
  (GetSize (this s) ≤ k →
   Erase (ptr_add (begin_of (this s)) k) s = Aborted).
Proof.
  unfold GetSize. split.
  - intros Hk.
    assert (distance (begin_of (this s)) (end_of (this s))
            < distance (begin_of (this s)) (ptr_add (begin_of (this s)) k)) as Hlt.
    { unfold distance, end_of, begin_of, ArrayPtr_index, ArrayPtr_Get, ptr_add.
      cbn. lia. }
    unfold Insert_copy, Insert_move, SecureInsert_copy, SecureInsert_move.
    by rewrite !assert_position_fails.
  - intros Hk. unfold Erase. members.
    unfold distance, ptr_add. cbn [off].
    by destruct (Z.ltb_spec (off (raw_ptr_ (data_ (this s))) + k
                             - off (raw_ptr_ (data_ (this s))))
                   (off (raw_ptr_ (data_ (this s))) + size_ (this s)
                    - off (raw_ptr_ (data_ (this s))))); [lia|].
Qed.

(** ** Unchecked access *)

(** X15. [operator[]] does not look at the size: for an index from the
    size up to the capacity it gives the address of an allocated slot,
    which reads without error, where At throws. *)
Theorem subscript_unchecked (s : State T) (index : Z) :
  valid s → GetSize (this s) ≤ index < GetCapacity (this s) →
  At index s = Throw out_of_range s ∧
  ∃ x, slots s !! Z.to_nat index = Some x ∧
       load (subscript (this s) index) s = Ret x s.
Proof.
  unfold GetSize, GetCapacity. intros [Hbuf Hcap Hsize Hrange] Hindex.
  split.
  { unfold At. members.
    by destruct (Z.geb_spec index (size_ (this s))); [|lia]. }
  destruct (buffer_cases s Hbuf) as [[Hd Hsl]|(l & Hd & Hl)];
    clear Hbuf; set (src := slots s) in *; clearbody src;
    destruct s as [[d n cap] h f fl]; cbn in *; subst d.
  { subst src. cbn in Hcap. lia. }
  destruct (lookup_lt_is_Some_2 src (Z.to_nat index) ltac:(lia)) as [x Hx].
  exists x. split; [done|].
  unfold subscript, ArrayPtr_index, ptr_add. cbn.
  replace (0 + index) with (Z.of_nat (Z.to_nat index)) by lia.
  by eapply load_ok.
Qed.

(** ** The move overload of Insert *)

(** [std::move_backward] inside one block, one slot towards the end: the
    [n] slots below index [e] arrive one index higher and the lowest of
    them is left moved-from. *)
Lemma move_backward_loop_ok n : ∀ (e : nat) v h fl l blk,
  h !! l = Some blk → (n ≤ e)%nat → (e < length blk)%nat →
  ∃ blk',
    move_backward_loop n (Ptr (Some l) (Z.of_nat e)) (Ptr (Some l) (Z.of_nat (S e)))
      (MkState v h None fl)
    = Ret (Ptr (Some l) (Z.of_nat (S e - n))) (MkState v (<[l := blk']> h) None fl) ∧
    length blk' = length blk ∧
    ∀ i, blk' !! i
         = if decide (e - n < i ≤ e)%nat then blk !! (i - 1)%nat
           else if decide (i = (e - n)%nat ∧ (0 < n)%nat) then moved <$> blk !! i
           else blk !! i.
Proof.
  induction n as [|n IH]; intros e v h fl l blk Hl Hn He.
  - exists blk. cbn. unfold ret. rewrite Nat.sub_0_r, insert_id by done.
    repeat split. intros i. repeat case_decide; (done || lia).
  - destruct e as [|e]; [lia|].
    destruct (lookup_lt_is_Some_2 blk e ltac:(lia)) as [x Hx].
    cbn [move_backward_loop]. rewrite !ptr_sub_block.
    rewrite (bind_Ret _ _ _ _ _ (load_ok v h None fl l blk e x Hl Hx)).
    rewrite (bind_Ret _ _ _ _ _ (assign_ok v h fl l blk (S e) x Hl ltac:(lia))).
    rewrite (bind_Ret _ _ _ _ _
      (store_ok v _ None fl l (<[S e := x]> blk) e (moved x)
         ltac:(apply lookup_insert_eq) ltac:(rewrite length_insert; lia))).
    destruct (IH e v (<[l := <[e := moved x]> (<[S e := x]> blk)]>
                        (<[l := <[S e := x]> blk]> h)) fl l
                (<[e := moved x]> (<[S e := x]> blk))
                ltac:(apply lookup_insert_eq) ltac:(lia)
                ltac:(rewrite !length_insert; lia))
      as (blk' & Hrun & Hlen & Hlook).
    exists blk'. rewrite Hrun, !insert_insert_eq.
    rewrite !length_insert in Hlen.
    split; [do 3 f_equal; lia|]. split; [done|].
    intros i. rewrite Hlook. clear IH Hlook Hrun.
    replace (S e - S n)%nat with (e - n)%nat by lia.
    destruct (decide (i = S e)) as [->|HiS].
    { repeat case_decide; try lia.
      rewrite list_lookup_insert_ne by lia.
      rewrite list_lookup_insert_eq by lia.
      by replace (S e - 1)%nat with e by lia. }
    destruct (decide (i = e)) as [->|Hie].
    { repeat case_decide; try lia.
      - rewrite !list_lookup_insert_ne by lia. done.
      - rewrite list_lookup_insert_eq by (rewrite length_insert; lia).
        by rewrite Hx. }
    repeat case_decide; try lia;
      rewrite ?list_lookup_insert_ne by lia; done.
Qed.

(** The elements after an insertion at index [k], read off the slots the
    backward move leaves. *)
Lemma insert_layout (blk blk' : list T) (n k : nat) value :
  (k ≤ n < length blk)%nat → length blk' = length blk →
  (∀ i, blk' !! i
        = if decide (n - (n - k) < i ≤ n)%nat then blk !! (i - 1)%nat
          else if decide (i = (n - (n - k))%nat ∧ (0 < n - k)%nat)
               then moved <$> blk !! i
               else blk !! i) →
  take (S n) (<[k := value]> blk')
  = take k (take n blk) ++ value :: drop k (take n blk).
Proof.
  intros Hk Hlen Hlook. apply list_eq. intros i.
  specialize (Hlook i).
  destruct (decide (i < S n)%nat) as [Hi|Hi].
  - rewrite lookup_take_lt by done.
    destruct (decide (i < k)%nat) as [Hik|Hik].
    + rewrite list_lookup_insert_ne by lia. rewrite Hlook. clear Hlook.
      rewrite lookup_app_l by (rewrite !length_take; lia).
      rewrite !lookup_take_lt by lia.
      repeat case_decide; (done || lia).
    + rewrite lookup_app_r by (rewrite !length_take; lia).
      rewrite !length_take.
      replace (k `min` (n `min` length blk))%nat with k by lia.
      destruct (decide (i = k)) as [->|Hne].
      * rewrite list_lookup_insert_eq by lia.
        by replace (k - k)%nat with 0%nat by lia.
      * rewrite list_lookup_insert_ne by lia. rewrite Hlook. clear Hlook.
        rewrite lookup_cons_ne_0 by lia.
        rewrite lookup_drop, lookup_take_lt by lia.
        repeat case_decide; try lia. f_equal. lia.
  - rewrite lookup_take_ge by lia. symmetry. apply lookup_ge_None.
    rewrite length_app. cbn. rewrite length_drop, !length_take. lia.
Qed.

(** SeсureInsert, move overload, on a vector with a live buffer that has
    a slot to spare: the value is stored at index [k] of that buffer, the
    elements from [k] on are one index higher, the size is one more. *)
Lemma SecureInsert_move_run n cap h fl l blk (k : Z) value :
  h !! l = Some blk →
  0 ≤ k ≤ n → n < Z.of_nat (length blk) → n + 1 < size_t_modulus →
  ∃ blk',
    SecureInsert_move (Ptr (Some l) k) value
      (MkState (MkSimpleVector (MkArrayPtr (Ptr (Some l) 0)) n cap) h None fl)
    = Ret (Ptr (Some l) k)
        (MkState (MkSimpleVector (MkArrayPtr (Ptr (Some l) 0)) (n + 1) cap)
           (<[l := blk']> h) None fl) ∧
    length blk' = length blk ∧
    take (Z.to_nat (n + 1)) blk'
    = take (Z.to_nat k) (take (Z.to_nat n) blk)
      ++ value :: drop (Z.to_nat k) (take (Z.to_nat n) blk).
Proof.
  intros Hl Hk Hn Hrange.
  destruct (move_backward_loop_ok (Z.to_nat n - Z.to_nat k) (Z.to_nat n)
              (MkSimpleVector (MkArrayPtr (Ptr (Some l) 0)) n cap) h fl l blk
              Hl ltac:(lia) ltac:(lia))
    as (blk1 & Hshift & Hlen1 & Hlook1).
  exists (<[Z.to_nat k := value]> blk1).
  split; [|split; [by rewrite length_insert|]].
  - unfold SecureInsert_move.
    rewrite bind_assert_position by (cbn; unfold distance; cbn; lia).
    members.
    unfold std_move_backward, distance, ptr_add. cbn [off base].
    replace (k - 0) with k by lia. rewrite (wrap_small k) by lia.
    replace (Z.to_nat (0 + n - (0 + k))) with (Z.to_nat n - Z.to_nat k)%nat by lia.
    replace (0 + n + 1) with (Z.of_nat (S (Z.to_nat n))) by lia.
    replace (0 + n) with (Z.of_nat (Z.to_nat n)) by lia.
    rewrite (bind_Ret _ _ _ _ _ Hshift).
    replace (0 + k) with (Z.of_nat (Z.to_nat k)) by lia.
    erewrite bind_Ret;
      [|apply (assign_ok _ _ _ l blk1); [apply lookup_insert_eq|lia]].
    members. rewrite (wrap_small (n + 1)) by lia.
    rewrite insert_insert_eq. unfold ret. do 2 f_equal; lia.
  - replace (Z.to_nat (n + 1)) with (S (Z.to_nat n)) by lia.
    apply insert_layout; [lia|done|done].
Qed.

Lemma Insert_move_run (s : State T) (k : Z) (value : T) :
  valid s → fuse s = None →
  0 ≤ k < GetSize (this s) → GetSize (this s) + 1 < size_t_modulus →
  ∃ r s',
    Insert_move (ptr_add (begin_of (this s)) k) value s = Ret r s' ∧
    valid s' ∧ fuse s' = None ∧ faults s' = faults s ∧
    GetSize (this s') = GetSize (this s) + 1 ∧
    elements s' = take (Z.to_nat k) (elements s)
                  ++ value :: drop (Z.to_nat k) (elements s) ∧
    r = subscript (this s') k ∧
    (if GetSize (this s) <? GetCapacity (this s)
     then GetCapacity (this s') = GetCapacity (this s) ∧
          data_ (this s') = data_ (this s)
     else GetCapacity (this s') = GetSize (this s) + 1).
Proof.
  unfold GetSize, GetCapacity.
  intros [Hbuf Hcap Hsize Hrange] Hfuse Hk Hfit.
  destruct (Z.ltb_spec (size_ (this s)) (capacity_ (this s))) as [Hroom|Hfull].
  - (* room to spare *)
    destruct (buffer_cases s Hbuf) as [[Hd Hsl]|(l & Hd & Hl)];
      unfold elements; clear Hbuf; set (src := slots s) in *; clearbody src;
      destruct s as [[d n cap] h f fl]; cbn in *; subst f d.
    { subst src. cbn in Hcap. lia. }
    destruct (SecureInsert_move_run n cap h fl l src k value Hl)
      as (blk' & Hrun & Hlen & Hel); [lia..|].
    unfold Insert_move.
    rewrite bind_assert_position by (cbn; unfold distance; cbn; lia).
    members. unfold ptr_add. cbn [base off].
    rewrite ptr_eqb_other_offset by lia. members.
    destruct (Z.ltb_spec n cap) as [_|]; [|lia].
    change (0 + k) with k. rewrite Hrun.
    eexists _, _. split; [reflexivity|].
    assert (∀ n', slots (MkState (MkSimpleVector (MkArrayPtr (Ptr (Some l) 0)) n' cap)
                           (<[l := blk']> h) None fl) = blk') as Hsl'.
    { intros n'. by erewrite slots_block; [|done|apply lookup_insert_eq]. }
    split; [|repeat split; try done].
    + split; cbn; rewrite ?Hsl'; try lia.
      eapply buffer_ok_block; [done|apply lookup_insert_eq].
    + cbn. by rewrite Hsl'.
  - (* full: Reserve(size_ + 1) first *)
    assert (size_ (this s) = capacity_ (this s)) as Heq by lia.
    destruct (Reserve_grow s (size_ (this s) + 1) Hbuf Hfuse
                ltac:(lia) ltac:(lia) ltac:(lia))
      as (s1 & Hrun1 & Hbuf1 & Hfuse1 & Hfl1 & Hsz1 & Hcap1 & Hsl1).
    pose proof (elements_length s ltac:(lia)) as Hlen.
    assert (Z.of_nat (length (slots s1)) = size_ (this s) + 1) as Hlen1.
    { rewrite Hsl1, length_app, length_replicate, Hlen. lia. }
    assert (take (Z.to_nat (size_ (this s))) (slots s1) = elements s) as Htake.
    { by rewrite Hsl1, take_app_length' by done. }
    destruct (buffer_cases s1 Hbuf1) as [[Hd1 Hnull]|(l1 & Hd1 & Hl1)].
    { rewrite Hnull in Hlen1. cbn in Hlen1. lia. }
    clear Hbuf1 Hsl1. set (blk1 := slots s1) in *. clearbody blk1.
    set (E := elements s) in *. clearbody E.
    destruct (buffer_cases s Hbuf) as [[Hd Hsl]|(l & Hd & Hl)].
    { rewrite Hsl in Hcap. cbn in Hcap. lia. }
    clear Hbuf Hl. set (src := slots s) in *. clearbody src.
    destruct s1 as [[d1 n1 cap1] h1 f1 fl1]; cbn in *; subst f1 fl1 n1 cap1 d1.
    destruct s as [[d n cap] h f fl]; cbn in *; subst f d cap.
    destruct (SecureInsert_move_run n (n + 1) h1 fl l1 blk1 k value Hl1)
      as (blk' & Hrun & Hlen' & Hel); [lia..|].
    unfold Insert_move.
    rewrite bind_assert_position by (cbn; unfold distance; cbn; lia).
    members. unfold ptr_add at 1 2. cbn [base off].
    rewrite ptr_eqb_other_offset by lia. members.
    destruct (Z.ltb_spec n (Z.of_nat (length src))) as [|_]; [lia|].
    members. unfold distance, ptr_add. cbn [base off].
    replace (0 + k - 0) with k by lia.
    rewrite (wrap_small k), (wrap_small (n + 1)) by lia.
    rewrite (bind_Ret _ _ _ _ _ Hrun1). members.
    unfold ptr_add. cbn [base off]. change (0 + k) with k. rewrite Hrun.
    eexists _, _. split; [reflexivity|].
    assert (∀ n', slots (MkState (MkSimpleVector (MkArrayPtr (Ptr (Some l1) 0)) n' (n + 1))
                           (<[l1 := blk']> h1) None fl) = blk') as Hsl'.
    { intros n'. by erewrite slots_block; [|done|apply lookup_insert_eq]. }
    split; [|repeat split; try done].
    + split; cbn; rewrite ?Hsl'; try lia.
      eapply buffer_ok_block; [done|apply lookup_insert_eq].
    + unfold elements. cbn. rewrite Hsl', Hel. by rewrite Htake.
Qed.


Lemma valid_backed (s : State T) : valid s → backed s.
Proof. intros [Hbuf Hcap Hsize Hrange]. split; [done|lia..]. Qed.

(** X17. Insert of a temporary before the end followed by Erase at the
    position Insert returned, on a vector that obeys the invariants of the
    data model: the size and the elements are those before the two
    calls. *)
Theorem Insert_Erase (s : State T) (k : Z) (value : T) :
  valid s → fuse s = None →
  0 ≤ k < GetSize (this s) → GetSize (this s) + 1 < size_t_modulus →
  ∃ r s',
    (p <- Insert_move (ptr_add (begin_of (this s)) k) value ;; Erase p) s
    = Ret r s' ∧
    faults s' = faults s ∧
    GetSize (this s') = GetSize (this s) ∧
    elements s' = elements s ∧
    r = subscript (this s') k.
Proof.
  intros Hvalid Hfuse Hk Hfit.
  destruct (Insert_move_run s k value Hvalid Hfuse Hk Hfit)
    as (p & s1 & Hrun1 & Hvalid1 & Hfuse1 & Hfl1 & Hsz1 & Hel1 & Hp & _).
  destruct (Erase_run s1 k (valid_backed s1 Hvalid1) Hfuse1 ltac:(unfold GetSize in *; lia))
    as (r & s' & Hrun2 & Hpost).
  exists r, s'. rewrite (bind_Ret _ _ _ _ _ Hrun1).
  subst p. unfold subscript, ArrayPtr_index. fold (begin_of (this s1)).
  destruct Hpost as [_ Hfl _ _ Hsz Hel Hr _].
  unfold GetSize in *. repeat split; try done; try congruence; try lia.
  rewrite Hel, Hel1.
  assert (length (take (Z.to_nat k) (elements s)) = Z.to_nat k) as Hlen.
  { destruct Hvalid. rewrite length_take, elements_length by lia. lia. }
  rewrite <-Hlen at 1. rewrite delete_middle. apply take_drop.
Qed.

(** ** Copy construction and copy assignment *)

(** The copy constructor from a vector [other] that obeys the invariants
    of the data model in the free store of [s]. *)
Lemma SimpleVector_copy_run (s : State T) (other : SimpleVector) :
  valid (with_this other s) → fuse s = None →
  ∃ s' d',
    SimpleVector_copy other s = Ret tt s' ∧
    fuse s' = None ∧ faults s' = faults s ∧
    this s' = MkSimpleVector d' (size_ other) (capacity_ other) ∧
    slots s' = elements (with_this other s)
               ++ replicate (Z.to_nat (capacity_ other) - Z.to_nat (size_ other)) dflt ∧
    ((d' = MkArrayPtr nullptr ∧ heap s' = heap s ∧ capacity_ other = 0) ∨
     (∃ l', d' = MkArrayPtr (Ptr (Some l') 0) ∧ heap s !! l' = None ∧
            heap s' = <[l' := slots s']> (heap s) ∧ 0 < capacity_ other)).
Proof.
  intros [Hbuf Hcap Hsize Hrange] Hfuse.
  destruct (buffer_cases _ Hbuf) as [[Hd Hsl]|(l & Hd & Hl)];
    unfold elements; clear Hbuf;
    set (src := slots (with_this other s)) in *; clearbody src;
    destruct s as [v h f fl], other as [d n cap]; cbn in *; subst f d.
  - (* [other] has no buffer *)
    subst src. cbn in *. subst cap. assert (n = 0) as -> by lia.
    exists (MkState empty_vector h None fl), (MkArrayPtr nullptr).
    split; [reflexivity|]. cbn. repeat split. by left.
  - destruct (Z.eq_dec cap 0) as [->|Hpos].
    + (* a buffer without slots *)
      assert (n = 0) as -> by lia.
      destruct src; [|cbn in Hcap; lia].
      exists (MkState empty_vector h None fl), (MkArrayPtr nullptr).
      split; [reflexivity|]. cbn. repeat split. by left.
    + set (l' := fresh (dom h)).
      assert (h !! l' = None) as Hfresh by apply fresh_block_free.
      assert (l ≠ l') as Hne by (intros ->; congruence).
      set (blk' := take (Z.to_nat n) src
                   ++ replicate (Z.to_nat cap - Z.to_nat n) dflt).
      exists (MkState (MkSimpleVector (MkArrayPtr (Ptr (Some l') 0)) n cap)
                (<[l' := blk']> h) None fl), (MkArrayPtr (Ptr (Some l') 0)).
      assert (slots (MkState (MkSimpleVector (MkArrayPtr (Ptr (Some l') 0)) n cap)
                       (<[l' := blk']> h) None fl) = blk') as Hsl'.
      { by erewrite slots_block; [|done|apply lookup_insert_eq]. }
      split.
      { unfold SimpleVector_copy, constructing, GetCapacity, GetSize. members.
        erewrite try_catch_Ret; [reflexivity|]. cbn [capacity_ size_ data_].
        rewrite (bind_Ret _ _ _ _ _ (ArrayPtr_sized_ok cap _ h fl ltac:(lia))).
        fold l'.
        erewrite try_catch_Ret; [reflexivity|].
        unfold std_copy, distance, begin_of, end_of, ArrayPtr_index, ArrayPtr_Get, ptr_add.
        cbn [off base raw_ptr_ data_ size_].
        replace (0 + n - 0) with n by lia.
        rewrite (bind_Ret _ _ _ _ _
          (copy_loop_ok (Z.to_nat n) 0%nat 0%nat _ _ fl l l' src
             (replicate (Z.to_nat cap) dflt) Hne
             ltac:(by rewrite lookup_insert_ne)
             ltac:(by rewrite lookup_insert_eq)
             ltac:(lia)
             ltac:(rewrite length_replicate; lia))).
        members. rewrite ArrayPtr_dtor_null.
        rewrite insert_insert_eq, drop_0.
        rewrite inserts_prefix by (rewrite length_take, length_replicate; lia).
        rewrite length_take, drop_replicate.
        replace (Z.to_nat cap - Z.to_nat n `min` length src)%nat
          with (Z.to_nat cap - Z.to_nat n)%nat by lia.
        done. }
      rewrite Hsl'. repeat split. right. exists l'. repeat split; [done|lia].
Qed.

(** X18. The copy constructor, from a vector that obeys the invariants of
    the data model, when no element operation throws: the new vector has
    the size, the capacity and the elements of the source, in a buffer of
    its own that was not live before (none when the capacity is 0); its
    slots past the size are value-initialised rather than copied. The
    source and every other live block are untouched. *)
Theorem SimpleVector_copy_spec (s : State T) (other : SimpleVector) :
  valid (with_this other s) → fuse s = None →
  ∃ s', SimpleVector_copy other s = Ret tt s' ∧
        valid s' ∧ faults s' = faults s ∧ heap s ⊆ heap s' ∧
        GetSize (this s') = GetSize other ∧
        GetCapacity (this s') = GetCapacity other ∧
        elements s' = elements (with_this other s) ∧
        elements (with_this other s') = elements (with_this other s) ∧
        drop (Z.to_nat (GetSize other)) (slots s')
        = replicate (Z.to_nat (GetCapacity other) - Z.to_nat (GetSize other)) dflt ∧
        block_at (heap s) (raw_ptr_ (data_ (this s'))) = None.
Proof.
  intros Hvalid Hfuse.
  destruct (SimpleVector_copy_run s other Hvalid Hfuse)
    as (s' & d' & Hrun & _ & Hfl & Hthis & Hsl & Hheap).
  destruct Hvalid as [Hbuf Hcap Hsize Hrange]. cbn in Hcap, Hsize, Hrange.
  pose proof (elements_length (with_this other s) ltac:(cbn; lia)) as Hlen.
  cbn in Hlen.
  assert (heap s ⊆ heap s') as Hsub.
  { destruct Hheap as [(_ & -> & _)|(l' & _ & Hfresh & -> & _)]; [done|].
    by apply insert_subseteq. }
  assert (slots (with_this other s') = slots (with_this other s)) as Hother.
  { destruct (buffer_cases _ Hbuf) as [[Hd Hnull]|(l & Hd & Hl)].
    - unfold slots, block_at. cbn in *. by rewrite Hd.
    - unfold slots at 1, block_at. cbn in *. rewrite Hd. cbn.
      by rewrite (lookup_weaken _ _ _ _ Hl Hsub). }
  exists s'. unfold GetSize, GetCapacity. rewrite Hthis. cbn.
  split; [done|]. split; [|repeat split; try done].
  - split; rewrite ?Hthis; cbn; try lia.
    + unfold buffer_ok. rewrite Hthis. cbn.
      destruct Hheap as [(-> & _)|(l' & -> & _ & Hh & _)]; [by left|].
      right. exists l', (slots s'). split; [done|].
      rewrite Hh. apply lookup_insert_eq.
    + rewrite Hsl, length_app, length_replicate, Hlen. lia.
  - unfold elements at 1. rewrite Hthis, Hsl. cbn.
    by rewrite take_app_length' by done.
  - unfold elements. by rewrite Hother.
  - by rewrite Hsl, drop_app_length' by done.
  - destruct Hheap as [(-> & _)|(l' & -> & Hfresh & _)]; [done|].
    unfold block_at. cbn. done.
Qed.

Lemma copy_assign_unfold (s s1 : State T) (rhs : SimpleVector) :
  SimpleVector_copy rhs s = Ret tt s1 →
  copy_assign (Other rhs) s = SimpleVector_dtor (this s) (with_this (this s1) s1).
Proof.
  intros Hrun. unfold copy_assign, bind, local_object. rewrite Hrun.
  destruct s as [[[p] n cap] h f fl], s1 as [[[p1] n1 cap1] h1 f1 fl1].
  reflexivity.
Qed.

(** X19. Copy assignment from another vector, both obeying what the data
    model asks and not sharing a buffer, when no element operation
    throws: the target gets the size, the capacity and the elements of
    the source in a fresh buffer, the buffer it held is freed, and the
    source keeps its elements. Assigning a vector to itself does
    nothing. *)
Theorem copy_assign_spec (s : State T) (rhs : SimpleVector) :
  buffer_ok s → valid (with_this rhs s) → fuse s = None →
  (raw_ptr_ (data_ (this s)) = nullptr ∨
   raw_ptr_ (data_ rhs) ≠ raw_ptr_ (data_ (this s))) →
  ∃ s', copy_assign (Other rhs) s = Ret tt s' ∧
        valid s' ∧ faults s' = faults s ∧
        GetSize (this s') = GetSize rhs ∧
        GetCapacity (this s') = GetCapacity rhs ∧
        elements s' = elements (with_this rhs s) ∧
        elements (with_this rhs s') = elements (with_this rhs s) ∧
        (raw_ptr_ (data_ (this s)) ≠ nullptr →
         block_at (heap s') (raw_ptr_ (data_ (this s))) = None) ∧
        copy_assign Self s = Ret tt s.
Proof.
  intros Hbuf Hvalid Hfuse Hdistinct.
  destruct (SimpleVector_copy_run s rhs Hvalid Hfuse)
    as (s1 & d' & Hrun & Hfuse1 & Hfl1 & Hthis1 & Hsl1 & Hheap1).
  destruct Hvalid as [Hbufr Hcapr Hsizer Hranger]. cbn in Hcapr, Hsizer, Hranger.
  pose proof (elements_length (with_this rhs s) ltac:(cbn; lia)) as Hlen.
  cbn in Hlen.
  (* the state after the copy is built and swapped in *)
  set (s2 := with_this (this s1) s1).
  assert (slots s2 = slots s1) as Hsl2 by reflexivity.
  (* the old buffer goes *)
  assert (∃ s', SimpleVector_dtor (this s) s2 = Ret tt s' ∧
                this s' = this s1 ∧ faults s' = faults s1 ∧
                slots s' = slots s1 ∧
                slots (with_this rhs s') = slots (with_this rhs s) ∧
                (raw_ptr_ (data_ (this s)) ≠ nullptr →
                 block_at (heap s') (raw_ptr_ (data_ (this s))) = None) ∧
                buffer_ok s') as (s' & Hdtor & Hthis' & Hfl' & Hsl' & Hrhs' & Hfreed & Hbuf').
  { destruct (buffer_cases s Hbuf) as [[Hd Hnull]|(l & Hd & Hl)].
    - (* the target had no buffer *)
      exists s2. unfold SimpleVector_dtor. rewrite Hd.
      split; [apply ArrayPtr_dtor_null|].
      repeat split; try done.
      + unfold slots. cbn.
        destruct Hheap1 as [(_ & -> & _)|(l' & _ & Hfresh & Hh & _)]; [done|].
        rewrite Hh. destruct (buffer_cases _ Hbufr) as [[Hdr _]|(lr & Hdr & Hlr)].
        { cbn in Hdr. by rewrite Hdr. }
        cbn in Hdr, Hlr. rewrite Hdr.
        unfold block_at. cbn. rewrite lookup_insert_ne; [done|].
        intros ->. congruence.
      + unfold buffer_ok. cbn. rewrite Hthis1. cbn.
        destruct Hheap1 as [(-> & _)|(l' & -> & _ & Hh & _)]; [by left|].
        right. exists l', (slots s1). split; [done|].
        rewrite Hh. apply lookup_insert_eq.
    - (* the target's buffer is deleted *)
      assert (heap s1 !! l = Some (slots s)) as Hl1.
      { destruct Hheap1 as [(_ & -> & _)|(l' & _ & Hfresh & -> & _)]; [done|].
        rewrite lookup_insert_ne; [done|]. intros ->. congruence. }
      exists (with_heap (delete l (heap s1)) s2).
      unfold SimpleVector_dtor. rewrite Hd.
      split.
      { unfold s2. destruct s1 as [v1 h1 f1 fl1]. cbn in *.
        unfold with_this, with_heap. cbn.
        by erewrite ArrayPtr_dtor_ok. }
      assert (∀ l0, l0 ≠ l →
                block_at (delete l (heap s1)) (Ptr (Some l0) 0)
                = heap s1 !! l0) as Hkeep.
      { intros l0 Hne. unfold block_at. cbn. by rewrite lookup_delete_ne. }
      repeat split; try done.
      + unfold slots. cbn. rewrite Hthis1. cbn.
        destruct Hheap1 as [(-> & _)|(l' & -> & Hfresh & Hh & _)]; [done|].
        cbn [raw_ptr_]. rewrite Hkeep by (intros ->; congruence).
        unfold block_at. cbn. done.
      + unfold slots. cbn.
        destruct (buffer_cases _ Hbufr) as [[Hdr _]|(lr & Hdr & Hlr)].
        { cbn in Hdr. by rewrite Hdr. }
        cbn in Hdr, Hlr. rewrite Hdr.
        assert (lr ≠ l) as Hne.
        { destruct Hdistinct as [Hn|Hn]; rewrite Hd in Hn; cbn in Hn; [done|].
          rewrite Hdr in Hn. cbn in Hn. congruence. }
        cbn [raw_ptr_]. rewrite Hkeep by done. unfold block_at. cbn. rewrite Hlr.
        destruct Hheap1 as [(_ & -> & _)|(l' & _ & Hfresh & -> & _)];
          [by rewrite Hlr|].
        rewrite lookup_insert_ne; [by rewrite Hlr|]. intros ->. congruence.
      + intros _. cbn. unfold block_at. cbn. apply lookup_delete_eq.
      + unfold buffer_ok. cbn. rewrite Hthis1. cbn.
        destruct Hheap1 as [(-> & _)|(l' & -> & Hfresh & Hh & _)]; [by left|].
        right. exists l', (slots s1). split; [done|].
        rewrite lookup_delete_ne by (intros ->; congruence).
        rewrite Hh. apply lookup_insert_eq. }
  exists s'. unfold GetSize, GetCapacity.
  split.
  { by rewrite (copy_assign_unfold s s1 rhs Hrun). }
  rewrite Hthis', Hthis1. cbn.
  split; [|repeat split; try done; try congruence].
  - split; rewrite ?Hthis', ?Hthis1, ?Hsl', ?Hsl1; cbn; try done; try lia.
    rewrite length_app, length_replicate, Hlen. lia.
  - unfold elements at 1. rewrite Hthis', Hthis1, Hsl', Hsl1. cbn.
    by rewrite take_app_length' by done.
  - unfold elements. by rewrite Hrhs'.
Qed.

(** ** When an element operation throws *)

Lemma ticks_fused n : ∀ f v h fl,
  ticks n (MkState v h (Some f) fl)
  = if decide (n ≤ f)%nat then Ret tt (MkState v h (Some (f - n)%nat) fl)
    else Throw element_error (MkState v h None fl).
Proof.
  induction n as [|n IH]; intros f v h fl.
  - cbn. unfold ret. by rewrite Nat.sub_0_r.
  - cbn [ticks]. destruct f as [|f].
    + by rewrite (bind_Throw _ _ _ element_error (MkState v h None fl)).
    + rewrite (bind_Ret _ _ _ tt (MkState v h (Some f) fl)) by done.
      rewrite IH. repeat case_decide; try lia; done.
Qed.

Lemma assign_fused v h fl l blk (i : nat) x f :
  h !! l = Some blk → (i < length blk)%nat →
  assign (Ptr (Some l) (Z.of_nat i)) x (MkState v h (Some (S f)) fl)
  = Ret tt (MkState v (<[l := <[i := x]> blk]> h) (Some f) fl).
Proof.
  intros Hl Hi. unfold assign.
  rewrite (bind_Ret _ _ _ tt (MkState v h (Some f) fl)) by done.
  by apply store_ok.
Qed.

Lemma assign_throws (p : ptr) x v h fl :
  assign p x (MkState v h (Some 0%nat) fl)
  = Throw element_error (MkState v h None fl).
Proof. reflexivity. Qed.

(** [std::generate] with a fuse: it fills the slots when the fuse lasts
    for two operations a slot, and otherwise throws with the block still
    in the free store. *)
Lemma generate_loop_fused n : ∀ (a f : nat) x v h fl l blk,
  h !! l = Some blk → (a + n ≤ length blk)%nat →
  (2 * n ≤ f)%nat →
  generate_loop n (Ptr (Some l) (Z.of_nat a)) x (MkState v h (Some f) fl)
  = Ret tt (MkState v (<[l := list_inserts a (replicate n x) blk]> h)
              (Some (f - 2 * n)%nat) fl).
Proof.
  induction n as [|n IH]; intros a f x v h fl l blk Hl Hlen Hf.
  - cbn. unfold ret. rewrite insert_id by done. by rewrite Nat.sub_0_r.
  - cbn [generate_loop].
    destruct f as [|[|f]]; [lia..|].
    rewrite (bind_Ret _ _ _ tt (MkState v h (Some (S f)) fl)) by done.
    rewrite (bind_Ret _ _ _ _ _ (assign_fused v h fl l blk a x f Hl ltac:(lia))).
    rewrite ptr_add_block.
    rewrite (IH (S a) f x v _ fl l (<[a := x]> blk)
               ltac:(apply lookup_insert_eq) ltac:(rewrite length_insert; lia)
               ltac:(lia)).
    rewrite insert_insert_eq. cbn [replicate list_inserts].
    rewrite list_insert_inserts_lt by lia.
    do 2 f_equal. f_equal. lia.
Qed.

Lemma generate_loop_throws n : ∀ (a f : nat) x v h fl l blk,
  h !! l = Some blk → (a + n ≤ length blk)%nat →
  (f < 2 * n)%nat →
  ∃ blk', generate_loop n (Ptr (Some l) (Z.of_nat a)) x (MkState v h (Some f) fl)
          = Throw element_error (MkState v (<[l := blk']> h) None fl).
Proof.
  induction n as [|n IH]; intros a f x v h fl l blk Hl Hlen Hf; [lia|].
  cbn [generate_loop].
  destruct f as [|[|f]].
  - exists blk. rewrite insert_id by done.
    by rewrite (bind_Throw _ _ _ element_error (MkState v h None fl)).
  - exists blk. rewrite insert_id by done.
    rewrite (bind_Ret _ _ _ tt (MkState v h (Some 0%nat) fl)) by done.
    by rewrite (bind_Throw _ _ _ _ _ (assign_throws _ _ _ _ _)).
  - rewrite (bind_Ret _ _ _ tt (MkState v h (Some (S f)) fl)) by done.
    rewrite (bind_Ret _ _ _ _ _ (assign_fused v h fl l blk a x f Hl ltac:(lia))).
    rewrite ptr_add_block.
    destruct (IH (S a) f x v (<[l := <[a := x]> blk]> h) fl l (<[a := x]> blk)
                ltac:(apply lookup_insert_eq) ltac:(rewrite length_insert; lia)
                ltac:(lia)) as (blk' & ->).
    exists blk'. by rewrite insert_insert_eq.
Qed.

(** [ArrayPtr(size)] when the fuse ends during the construction: the
    exception leaves with the members and the live blocks as they were;
    when it is [std::generate] that throws, the new block stays in the
    free store. *)
Lemma ArrayPtr_sized_throws (size : Z) (f : nat) v h fl :
  0 < size → (f < 3 * Z.to_nat size)%nat →
  ∃ h', ArrayPtr_sized size (MkState v h (Some f) fl)
        = Throw element_error (MkState v h' None fl) ∧
        h ⊆ h' ∧
        ((f < Z.to_nat size)%nat → h' = h) ∧
        ((Z.to_nat size ≤ f)%nat → is_Some (h' !! fresh (dom h))).
Proof.
  intros Hpos Hf. unfold ArrayPtr_sized.
  destruct (Z.eqb_spec size 0) as [|_]; [lia|].
  unfold new_array.
  destruct (decide (Z.to_nat size ≤ f)%nat) as [Hle|Hgt].
  - set (l := fresh (dom h)).
    destruct (generate_loop_throws (Z.to_nat size) 0%nat (f - Z.to_nat size) dflt v
                (<[l := replicate (Z.to_nat size) dflt]> h) fl l
                (replicate (Z.to_nat size) dflt)
                ltac:(apply lookup_insert_eq)
                ltac:(rewrite length_replicate; lia) ltac:(lia))
      as (blk' & Hgen).
    exists (<[l := blk']> h). split; [|split; [|split]].
    + unfold bind at 1 2. rewrite ticks_fused.
      destruct (decide (Z.to_nat size ≤ f)%nat); [|lia].
      cbv [with_heap]. cbn [this heap fuse faults].
      fold l. unfold std_generate, distance, ptr_add. cbn [off base].
      replace (0 + size - 0) with size by lia.
      rewrite (bind_Throw _ _ _ _ _ Hgen). by rewrite insert_insert_eq.
    + apply insert_subseteq, fresh_block_free.
    + lia.
    + intros _. rewrite lookup_insert_eq. by eexists.
  - exists h. split; [|split; [done|split; [done|lia]]].
    unfold bind at 1 2. rewrite ticks_fused.
    by destruct (decide (Z.to_nat size ≤ f)%nat); [lia|].
Qed.

Lemma slots_weaken (s : State T) h' :
  buffer_ok s → heap s ⊆ h' → slots (with_heap h' s) = slots s.
Proof.
  intros Hbuf Hsub.
  destruct (buffer_cases s Hbuf) as [[Hd Hnull]|(l & Hd & Hl)].
  - unfold slots, block_at. cbn. by rewrite Hd.
  - unfold slots at 1, block_at. cbn. rewrite Hd. cbn.
    by rewrite (lookup_weaken _ _ _ _ Hl Hsub).
Qed.

(** X20. Reserve, Resize, Erase and the copy overload of Insert on a
    vector with room build their replacement buffer before the [try]:
    when an element operation of that construction throws, the exception
    leaves the call with the members, the elements and every live block as
    they were and nothing deleted twice. If it was [std::generate] that
    threw, the block just allocated is still in the free store. *)
Theorem construction_throw (s : State T) (f : nat) (N k : Z) (value : const_ref T) :
  buffer_ok s → fuse s = Some f → 0 < N → (f < 3 * Z.to_nat N)%nat →
  ∃ s',
    this s' = this s ∧ fuse s' = None ∧ faults s' = faults s ∧
    heap s ⊆ heap s' ∧ elements s' = elements s ∧
    ((f < Z.to_nat N)%nat → heap s' = heap s) ∧
    ((Z.to_nat N ≤ f)%nat → ∃ l, heap s !! l = None ∧ is_Some (heap s' !! l)) ∧
    (GetCapacity (this s) < N → Reserve N s = Throw element_error s') ∧
    (GetSize (this s) ≤ N → Resize N s = Throw element_error s') ∧
    (GetSize (this s) = N → 0 ≤ k < N →
     Erase (ptr_add (begin_of (this s)) k) s = Throw element_error s') ∧
    (GetCapacity (this s) = N → 0 ≤ k < GetSize (this s) → GetSize (this s) < N →
     Insert_copy (ptr_add (begin_of (this s)) k) value s = Throw element_error s').
Proof.
  unfold GetCapacity, GetSize. intros Hbuf Hfuse HN Hf.
  pose proof (slots_weaken s) as Hweak.
  destruct s as [v h f0 fl]. cbn in Hfuse. subst f0.
  destruct (ArrayPtr_sized_throws N f v h fl HN Hf) as (h' & Hrun & Hsub & Hsame & Hleak).
  exists (MkState v h' None fl). cbn [this heap fuse faults].
  split; [done|]. split; [done|]. split; [done|]. split; [done|].
  split; [|split; [done|split; [|split; [|split; [|split]]]]].
  - unfold elements. cbn [this]. f_equal. by apply (Hweak h').
  - intros Hle. exists (fresh (dom h)). split; [apply fresh_block_free|by apply Hleak].
  - intros Hcap. unfold Reserve. members.
    destruct (Z.leb_spec N (capacity_ v)) as [|_]; [lia|].
    by rewrite (bind_Throw _ _ _ _ _ Hrun).
  - intros Hsize. unfold Resize. members.
    destruct (Z.ltb_spec N (size_ v)) as [|_]; [lia|].
    by rewrite (bind_Throw _ _ _ _ _ Hrun).
  - intros Hsize Hk. unfold Erase. members.
    unfold distance, ptr_add, begin_of, ArrayPtr_Get. cbn [off].
    destruct (Z.ltb_spec (off (raw_ptr_ (data_ v)) + k - off (raw_ptr_ (data_ v)))
                (off (raw_ptr_ (data_ v)) + size_ v - off (raw_ptr_ (data_ v))))
      as [_|]; [|lia].
    members. rewrite Hsize. by rewrite (bind_Throw _ _ _ _ _ Hrun).
  - intros Hcap Hk Hroom. unfold Insert_copy.
    rewrite bind_assert_position
      by (unfold distance, begin_of, end_of, ArrayPtr_index, ArrayPtr_Get, ptr_add;
          cbn; lia).
    members.
    assert (ptr_eqb (ptr_add (raw_ptr_ (data_ v)) k)
              (ptr_add (raw_ptr_ (data_ v)) (size_ v)) = false) as ->.
    { apply bool_decide_eq_false_2. unfold ptr_add.
      intros Heq. injection Heq. lia. }
    members. destruct (Z.ltb_spec (size_ v) (capacity_ v)) as [_|]; [|lia].
    unfold SecureInsert_copy.
    rewrite bind_assert_position
      by (unfold distance, begin_of, end_of, ArrayPtr_index, ArrayPtr_Get, ptr_add;
          cbn; lia).
    members. rewrite Hcap. by rewrite (bind_Throw _ _ _ _ _ Hrun).
Qed.

(** [std::move] between two blocks when the element assignment number
    [j + 1] throws: [j] slots have been moved. *)
Lemma move_loop_throws n : ∀ (j a b : nat) v h fl ls ld src dst,
  ls ≠ ld → h !! ls = Some src → h !! ld = Some dst →
  (a + n ≤ length src)%nat → (b + n ≤ length dst)%nat → (j < n)%nat →
  move_loop n (Ptr (Some ls) (Z.of_nat a)) (Ptr (Some ld) (Z.of_nat b))
    (MkState v h (Some j) fl)
  = Throw element_error
      (MkState v
         (<[ls := list_inserts a (moved <$> take j (drop a src)) src]>
            (<[ld := list_inserts b (take j (drop a src)) dst]> h))
         None fl).
Proof.
  induction n as [|n IH]; intros j a b v h fl ls ld src dst Hne Hs Hd Ha Hb Hj;
    [lia|].
  destruct (lookup_lt_is_Some_2 src a ltac:(lia)) as [x Hx].
  cbn [move_loop].
  rewrite (bind_Ret _ _ _ _ _ (load_ok v h (Some j) fl ls src a x Hs Hx)).
  destruct j as [|j].
  - rewrite (bind_Throw _ _ _ _ _ (assign_throws _ _ _ _ _)). cbn.
    by rewrite (insert_id h ld), (insert_id h ls).
  - rewrite (bind_Ret _ _ _ _ _ (assign_fused v h fl ld dst b x j Hd ltac:(lia))).
    rewrite (bind_Ret _ _ _ _ _
      (store_ok v _ (Some j) fl ls src a (moved x)
         ltac:(by rewrite lookup_insert_ne) ltac:(lia))).
    rewrite !ptr_add_block.
    rewrite (IH j (S a) (S b) v _ fl ls ld (<[a := moved x]> src) (<[b := x]> dst)).
    + rewrite heap_overwrite by done.
      rewrite drop_insert_lt by lia.
      rewrite (take_drop_step src a j x Hx).
      cbn [fmap list_fmap list_inserts].
      by rewrite !list_insert_inserts_lt by lia.
    + done.
    + by rewrite lookup_insert_eq.
    + rewrite lookup_insert_ne by done. by rewrite lookup_insert_eq.
    + rewrite length_insert. lia.
    + rewrite length_insert. lia.
    + lia.
Qed.

Lemma ArrayPtr_sized_fused (size : Z) (f : nat) v h fl :
  0 < size → (3 * Z.to_nat size ≤ f)%nat →
  ArrayPtr_sized size (MkState v h (Some f) fl)
  = Ret (MkArrayPtr (Ptr (Some (fresh (dom h))) 0))
      (MkState v (<[fresh (dom h) := replicate (Z.to_nat size) dflt]> h)
         (Some (f - 3 * Z.to_nat size)%nat) fl).
Proof.
  intros Hpos Hf. unfold ArrayPtr_sized.
  destruct (Z.eqb_spec size 0) as [|_]; [lia|].
  unfold new_array. unfold bind at 1 2. rewrite ticks_fused.
  destruct (decide (Z.to_nat size ≤ f)%nat); [|lia].
  cbv [with_heap]. cbn [this heap fuse faults].
  unfold std_generate, distance, ptr_add. cbn [off base].
  replace (0 + size - 0) with size by lia.
  rewrite (bind_Ret _ _ _ _ _
    (generate_loop_fused (Z.to_nat size) 0%nat (f - Z.to_nat size) dflt v _ fl
       (fresh (dom h)) (replicate (Z.to_nat size) dflt)
       ltac:(apply lookup_insert_eq)
       ltac:(rewrite length_replicate; lia) ltac:(lia))).
  unfold ret. rewrite insert_insert_eq, inserts_replicate.
  do 3 f_equal. lia.
Qed.

(** X21. Reserve and Resize when the assignment that moves element
    number [j + 1] into the replacement buffer throws: size, capacity and
    buffer of the vector are as before, but its first [j] elements are
    left moved-from, and the handler together with the unwinding deletes
    the replacement buffer twice. *)
Theorem relocation_throw (s : State T) (N : Z) (j : nat) :
  valid s → 0 < GetCapacity (this s) →
  GetSize (this s) ≤ N → GetCapacity (this s) < N →
  fuse s = Some (3 * Z.to_nat N + j)%nat → (j < Z.to_nat (GetSize (this s)))%nat →
  ∃ s' p,
    Reserve N s = Throw element_error s' ∧
    Resize N s = Throw element_error s' ∧
    this s' = this s ∧
    faults s' = BadDelete p :: faults s ∧
    elements s' = (moved <$> take j (elements s)) ++ drop j (elements s).
Proof.
  unfold GetCapacity, GetSize.
  intros [Hbuf Hcap Hsize Hrange] Hroom HN HcapN Hfuse Hj.
  destruct (buffer_cases s Hbuf) as [[Hd Hsl]|(l & Hd & Hl)];
    unfold elements; clear Hbuf; set (src := slots s) in *; clearbody src;
    destruct s as [[d n cap] h f fl]; cbn in *; subst f d.
  { subst src. cbn in Hcap. lia. }
  set (l' := fresh (dom h)).
  assert (h !! l' = None) as Hfresh by apply fresh_block_free.
  assert (l ≠ l') as Hne by (intros ->; congruence).
  set (src' := list_inserts 0 (moved <$> take j (drop 0 src)) src).
  assert (∀ (rest : ArrayPtr → M T unit),
    (copy <- ArrayPtr_sized N ;;
     try_catch
       (b <- begin_ ;;
        e <- end_ ;;
        std_move b e (ArrayPtr_Get copy) ;;
        copy <- data_swap copy ;;
        rest copy)
       (destroy_and_rethrow copy))
      (MkState (MkSimpleVector (MkArrayPtr (Ptr (Some l) 0)) n cap) h
         (Some (3 * Z.to_nat N + j)%nat) fl)
    = Throw element_error
        (MkState (MkSimpleVector (MkArrayPtr (Ptr (Some l) 0)) n cap)
           (<[l := src']> h) None
           (BadDelete (Ptr (Some l') 0) :: fl))) as Hrun.
  { intros rest.
    rewrite (bind_Ret _ _ _ _ _
      (ArrayPtr_sized_fused N (3 * Z.to_nat N + j)
         (MkSimpleVector (MkArrayPtr (Ptr (Some l) 0)) n cap) h fl
         ltac:(lia) ltac:(lia))).
    fold l'. replace (3 * Z.to_nat N + j - 3 * Z.to_nat N)%nat with j by lia.
    unfold try_catch.
    assert ((b <- begin_ ;;
             e <- end_ ;;
             std_move b e (ArrayPtr_Get (MkArrayPtr (Ptr (Some l') 0))) ;;
             copy <- data_swap (MkArrayPtr (Ptr (Some l') 0)) ;;
             rest copy)
              (MkState (MkSimpleVector (MkArrayPtr (Ptr (Some l) 0)) n cap)
                 (<[l' := replicate (Z.to_nat N) dflt]> h) (Some j) fl)
            = Throw element_error
                (MkState (MkSimpleVector (MkArrayPtr (Ptr (Some l) 0)) n cap)
                   (<[l := src']>
                      (<[l' := list_inserts 0 (take j (drop 0 src))
                                 (replicate (Z.to_nat N) dflt)]>
                         (<[l' := replicate (Z.to_nat N) dflt]> h)))
                   None fl)) as ->.
    { members. unfold std_move, distance, ptr_add. cbn [off base].
      replace (0 + n - 0) with n by lia.
      apply bind_Throw.
      apply (move_loop_throws (Z.to_nat n) j 0%nat 0%nat _ _ fl l l' src
               (replicate (Z.to_nat N) dflt) Hne);
        [by rewrite lookup_insert_ne|by rewrite lookup_insert_eq|lia
        |rewrite length_replicate; lia|lia]. }
    unfold destroy_and_rethrow.
    erewrite bind_Ret;
      [|eapply ArrayPtr_dtor_ok; rewrite lookup_insert_ne by done;
        apply lookup_insert_eq].
    unfold ArrayPtr_dtor, delete_array, bind, throw. cbn.
    rewrite lookup_delete_eq. cbn.
    do 2 f_equal.
    rewrite delete_insert_ne by done.
    rewrite insert_insert_eq, delete_insert_eq.
    by rewrite delete_id by done. }
  exists (MkState (MkSimpleVector (MkArrayPtr (Ptr (Some l) 0)) n cap)
            (<[l := src']> h) None (BadDelete (Ptr (Some l') 0) :: fl)),
    (Ptr (Some l') 0).
  split; [|split; [|split; [reflexivity|split; [reflexivity|]]]].
  - unfold Reserve. members.
    destruct (Z.leb_spec N cap) as [|_]; [lia|]. apply Hrun.
  - unfold Resize. members.
    destruct (Z.ltb_spec N n) as [|_]; [lia|]. apply Hrun.
  - cbn. erewrite slots_block; [|done|apply lookup_insert_eq].
    unfold src'. rewrite drop_0.
    rewrite inserts_prefix by (rewrite length_fmap, length_take; lia).
    rewrite length_fmap, length_take.
    replace (j `min` length src)%nat with j by lia.
    rewrite take_app, length_fmap, length_take.
    replace (j `min` length src)%nat with j by lia.
    rewrite take_ge by (rewrite length_fmap, length_take; lia).
    rewrite take_take, take_drop_commute.
    replace (j `min` Z.to_nat n)%nat with j by lia.
    do 3 f_equal. lia.
Qed.

(** ** The comparison operators *)

Section Comparisons.
Context `{Ordered T}.

Lemma ptr_eqb_add (p : ptr) (a b : Z) :
  ptr_eqb (ptr_add p a) (ptr_add p b) = bool_decide (a = b).
Proof.
  unfold ptr_eqb, ptr_add. apply bool_decide_ext. split.
  - intros Heq. injection Heq. lia.
  - by intros ->.
Qed.

(** The elements of a vector are read through its iterators without a
    fault, whatever object [*this] is. *)
Lemma elements_readable (v : SimpleVector) (s : State T) (j : nat) (x : T) :
  backed (with_this v s) → elements (with_this v s) !! j = Some x →
  load (ptr_add (begin_of v) (Z.of_nat j)) s = Ret x s.
Proof.
  intros [Hbuf Hsize _]. unfold elements.
  destruct (buffer_cases _ Hbuf) as [[Hd Hsl]|(l & Hd & Hl)];
    clear Hbuf; set (src := slots _) in *; clearbody src;
    destruct s as [v0 h f fl]; destruct v as [d n cap]; cbn in *; subst d.
  { subst src. by rewrite take_nil. }
  intros Hj. apply lookup_take_Some in Hj as [Hj _].
  unfold begin_of, ArrayPtr_Get, ptr_add. cbn.
  by apply (load_ok v0 h f fl l src j x).
Qed.

Lemma lexicographical_compare_loop_ok (s : State T) (p1 p2 : ptr) (L R : list T) :
  (∀ j x, L !! j = Some x → load (ptr_add p1 (Z.of_nat j)) s = Ret x s) →
  (∀ j x, R !! j = Some x → load (ptr_add p2 (Z.of_nat j)) s = Ret x s) →
  ∀ (n i : nat),
    n = ((length L - i) `min` (length R - i))%nat →
    (i ≤ length L)%nat → (i ≤ length R)%nat →
    lexicographical_compare_loop n
      (ptr_add p1 (Z.of_nat i)) (ptr_add p1 (Z.of_nat (length L)))
      (ptr_add p2 (Z.of_nat i)) (ptr_add p2 (Z.of_nat (length R))) s
    = Ret (lex_lt (drop i L) (drop i R)) s.
Proof.
  intros HL HR n. induction n as [|n IH]; intros i Hn Hi1 Hi2.
  - cbn [lexicographical_compare_loop]. rewrite !ptr_eqb_add. unfold ret.
    f_equal.
    destruct (decide (i = length L)) as [->|Hne].
    + rewrite drop_all. rewrite bool_decide_eq_true_2 by done.
      destruct (drop (length L) R) as [|y R'] eqn:HdR.
      * apply (f_equal length) in HdR. rewrite length_drop in HdR. cbn in HdR.
        rewrite bool_decide_eq_true_2 by lia. reflexivity.
      * apply (f_equal length) in HdR. rewrite length_drop in HdR. cbn in HdR.
        rewrite bool_decide_eq_false_2 by lia. reflexivity.
    + rewrite bool_decide_eq_false_2 by lia.
      assert (i = length R) as -> by lia.
      rewrite (drop_all R). by destruct (drop _ L).
  - destruct (lookup_lt_is_Some_2 L i ltac:(lia)) as [x Hx].
    destruct (lookup_lt_is_Some_2 R i ltac:(lia)) as [y Hy].
    cbn [lexicographical_compare_loop].
    rewrite (bind_Ret _ _ _ _ _ (HL i x Hx)).
    rewrite (bind_Ret _ _ _ _ _ (HR i y Hy)).
    rewrite (drop_S L x i Hx), (drop_S R y i Hy). cbn [lex_lt].
    destruct (less x y); [done|]. destruct (less y x); [done|].
    replace (ptr_add (ptr_add p1 (Z.of_nat i)) 1) with (ptr_add p1 (Z.of_nat (S i)))
      by (unfold ptr_add; cbn; f_equal; lia).
    replace (ptr_add (ptr_add p2 (Z.of_nat i)) 1) with (ptr_add p2 (Z.of_nat (S i)))
      by (unfold ptr_add; cbn; f_equal; lia).
    apply IH; lia.
Qed.

Lemma lexicographical_compare_run (lhs rhs : SimpleVector) (s : State T) :
  backed (with_this lhs s) → backed (with_this rhs s) →
  lexicographical_compare (begin_of lhs) (end_of lhs) (begin_of rhs) (end_of rhs) s
  = Ret (lex_lt (elements (with_this lhs s)) (elements (with_this rhs s))) s.
Proof.
  intros Hl Hr.
  pose proof (elements_length _ (backed_size _ Hl)) as HlenL.
  pose proof (elements_length _ (backed_size _ Hr)) as HlenR.
  pose proof (backed_size _ Hl) as [HnL _].
  pose proof (backed_size _ Hr) as [HnR _].
  cbn [this with_this] in HlenL, HlenR, HnL, HnR.
  pose proof (lexicographical_compare_loop_ok s (begin_of lhs) (begin_of rhs)
                _ _ (λ j x, elements_readable lhs s j x Hl)
                (λ j x, elements_readable rhs s j x Hr)) as Hloop.
  specialize (Hloop _ 0%nat eq_refl ltac:(lia) ltac:(lia)).
  rewrite !drop_0 in Hloop. rewrite <-Hloop.
  unfold lexicographical_compare, distance, end_of, begin_of, ArrayPtr_index,
    ArrayPtr_Get, ptr_add.
  cbn [off base]. rewrite HlenL, HlenR. rewrite !Z2Nat.id by lia.
  rewrite !Z.add_0_r.
  replace (Z.to_nat (Z.min (off (raw_ptr_ (data_ lhs)) + size_ lhs
                            - off (raw_ptr_ (data_ lhs)))
                       (off (raw_ptr_ (data_ rhs)) + size_ rhs
                        - off (raw_ptr_ (data_ rhs)))))
    with ((Z.to_nat (size_ lhs) - 0) `min` (Z.to_nat (size_ rhs) - 0))%nat by lia.
  by destruct (raw_ptr_ (data_ lhs)), (raw_ptr_ (data_ rhs)).
Qed.

(** X22. [operator<] of two vectors whose elements lie inside their
    buffers reads only: it returns the lexicographic order of the element
    lists, whatever the capacities and the slots past the sizes, and
    [operator>] is [operator<] with the operands exchanged. *)
Theorem operator_lt_spec (lhs rhs : SimpleVector) (s : State T) :
  backed (with_this lhs s) → backed (with_this rhs s) →
  operator_lt lhs rhs s
  = Ret (lex_lt (elements (with_this lhs s)) (elements (with_this rhs s))) s ∧
  operator_gt lhs rhs s
  = Ret (lex_lt (elements (with_this rhs s)) (elements (with_this lhs s))) s ∧
  operator_gt lhs rhs s = operator_lt rhs lhs s.
Proof.
  intros Hl Hr. unfold operator_lt, operator_gt.
  by rewrite !lexicographical_compare_run.
Qed.

Lemma operator_eq_run (lhs rhs : SimpleVector) (s : State T) :
  backed (with_this lhs s) → backed (with_this rhs s) →
  operator_eq lhs rhs s
  = Ret (negb (lex_lt (elements (with_this lhs s)) (elements (with_this rhs s)))
         && negb (lex_lt (elements (with_this rhs s)) (elements (with_this lhs s))))
      s.
Proof.
  intros Hl Hr. unfold operator_eq, operator_lt.
  rewrite (bind_Ret _ _ _ _ _ (lexicographical_compare_run lhs rhs s Hl Hr)).
  destruct (lex_lt (elements (with_this lhs s)) _); [done|]. cbn [negb].
  by rewrite (bind_Ret _ _ _ _ _ (lexicographical_compare_run rhs lhs s Hr Hl)).
Qed.

(** X23. The derived operators in terms of [operator<], for any
    [operator<] of the elements: [==] holds when neither vector is less
    than the other, [!=] is its negation, [>=] is exactly the negation of
    [<], and [<=] is [lhs < rhs] or not [rhs < lhs]. None of them writes to
    the free store or to a vector. *)
Theorem derived_operators (lhs rhs : SimpleVector) (s : State T) :
  backed (with_this lhs s) → backed (with_this rhs s) →
  ∃ a b,
    operator_lt lhs rhs s = Ret a s ∧
    operator_lt rhs lhs s = Ret b s ∧
    operator_eq lhs rhs s = Ret (negb a && negb b) s ∧
    operator_ne lhs rhs s = Ret (a || b) s ∧
    operator_le lhs rhs s = Ret (a || negb b) s ∧
    operator_ge lhs rhs s = Ret (negb a) s.
Proof.
  intros Hl Hr.
  pose proof (lexicographical_compare_run lhs rhs s Hl Hr) as Hlt.
  pose proof (operator_eq_run lhs rhs s Hl Hr) as Heq.
  pose proof (operator_eq_run rhs lhs s Hr Hl) as Heq'.
  eexists _, _. split; [exact Hlt|]. split; [by apply lexicographical_compare_run|].
  split; [exact Heq|].
  unfold operator_ne, operator_le, operator_ge.
  rewrite (bind_Ret _ _ _ _ _ Heq).
  unfold operator_lt. rewrite !(bind_Ret _ _ _ _ _ Hlt).
  destruct (lex_lt (elements (with_this lhs s)) _),
    (lex_lt (elements (with_this rhs s)) _); cbn; by rewrite ?Heq'.
Qed.

Lemma lex_lt_irrefl (l : list T) :
  (∀ x, less x x = false) → lex_lt l l = false.
Proof.
  intros Hirr. induction l as [|x l IH]; [done|]. cbn. by rewrite Hirr.
Qed.

Lemma lex_lt_neither (l r : list T) :
  (∀ x y, less x y = false → less y x = false → x = y) →
  lex_lt l r = false → lex_lt r l = false → l = r.
Proof.
  intros Htri. revert r. induction l as [|x l IH]; intros [|y r]; cbn; try done.
  destruct (less x y) eqn:Hxy; [done|].
  destruct (less y x) eqn:Hyx; [done|].
  intros H1 H2. rewrite (Htri x y Hxy Hyx). f_equal. by apply IH.
Qed.

(** X24. When [operator<] of the elements is irreflexive and any two
    elements of which neither is less are the same, [operator==] holds
    exactly when the two vectors have the same elements, whatever their
    capacities and buffers, and [operator!=] exactly when they do not. *)
Theorem operator_eq_spec (lhs rhs : SimpleVector) (s : State T) :
  (∀ x, less x x = false) →
  (∀ x y, less x y = false → less y x = false → x = y) →
  backed (with_this lhs s) → backed (with_this rhs s) →
  ∃ e,
    operator_eq lhs rhs s = Ret e s ∧
    operator_ne lhs rhs s = Ret (negb e) s ∧
    (e = true ↔ elements (with_this lhs s) = elements (with_this rhs s)).
Proof.
  intros Hirr Htri Hl Hr.
  pose proof (operator_eq_run lhs rhs s Hl Hr) as Heq.
  eexists. split; [exact Heq|]. split.
  { unfold operator_ne. by rewrite (bind_Ret _ _ _ _ _ Heq). }
  split.
  - intros [Ha Hb]%andb_true_iff.
    apply negb_true_iff in Ha, Hb. by apply lex_lt_neither.
  - intros ->. by rewrite lex_lt_irrefl.
Qed.

End Comparisons.

(** ** An item inside the vector's own buffer *)

(** Reading a reference into a block that is no longer live is recorded,
    and the assignment stores what the read produced. *)
Lemma copy_at_end_dangling (s : State T) (l : loc) (k : Z) :
  heap s !! l = None →
  copy_at_end (Slot (Ptr (Some l) k)) s
  = store_at_end dflt (add_fault (BadAccess (Ptr (Some l) k)) s).
Proof.
  intros Hl. unfold copy_at_end, store_at_end. members.
  unfold assign_from, read. unfold bind at 1. unfold load. cbn [base heap].
  by rewrite Hl.
Qed.

(** X27. [v.PushBack(v[i])] with the copy overload on a full vector that
    obeys the invariants of the data model, and [v.Insert(v.end(), v[i])]
    alike: the reference is good before the call, but Reserve frees the
    buffer it points into before the item is read, so the read is a use
    after free. Size and capacity become size + 1 and the earlier elements
    are kept. *)
Theorem PushBack_copy_own_element (s : State T) (i : Z) :
  valid s → fuse s = None →
  size_ (this s) = capacity_ (this s) → 0 ≤ i < size_ (this s) →
  size_ (this s) + 1 < size_t_modulus →
  ∃ x s',
    elements s !! Z.to_nat i = Some x ∧
    refers s (Slot (subscript (this s) i)) x ∧
    ¬ foreign s (Slot (subscript (this s) i)) ∧
    PushBack_copy (Slot (subscript (this s) i)) s = Ret tt s' ∧
    Insert_copy (end_of (this s)) (Slot (subscript (this s) i)) s
    = Ret (subscript (this s') (GetSize (this s))) s' ∧
    faults s' = BadAccess (subscript (this s) i) :: faults s ∧
    GetSize (this s') = GetSize (this s) + 1 ∧
    GetCapacity (this s') = GetSize (this s) + 1 ∧
    take (Z.to_nat (GetSize (this s))) (elements s') = elements s.
Proof.
  unfold GetSize, GetCapacity.
  intros [Hbuf Hcap Hsize Hrange] Hfuse Hfull Hi Hfit.
  assert (length (elements s) = Z.to_nat (size_ (this s))) as Hlen
    by (apply elements_length; lia).
  destruct (lookup_lt_is_Some_2 (elements s) (Z.to_nat i) ltac:(lia)) as [x Hx].
  destruct (Reserve_grow_run s (size_ (this s) + 1) Hbuf Hfuse
              ltac:(lia) ltac:(lia) ltac:(lia))
    as (s1 & Hrun & Hbuf1 & Hfuse1 & Hfl1 & Hsz1 & Hcap1 & Hsl1 & _ & Hfreed).
  destruct (buffer_cases s Hbuf) as [[Hd Hnull]|(l & Hd & Hl)].
  { rewrite Hnull in Hcap. cbn in Hcap. lia. }
  specialize (Hfreed l ltac:(by rewrite Hd)).
  assert (subscript (this s) i = Ptr (Some l) i) as Hsub.
  { unfold subscript, ArrayPtr_index, ptr_add. rewrite Hd. cbn. f_equal. }
  assert (length (slots s1) = S (Z.to_nat (size_ (this s)))) as Hlen1.
  { rewrite Hsl1, length_app, length_replicate, Hlen. lia. }
  set (s1' := add_fault (BadAccess (Ptr (Some l) i)) s1).
  assert (slots s1' = slots s1) as Hsl1' by reflexivity.
  destruct (store_at_end_ok s1' dflt) as (s' & Hstore & _ & _ & Hfl & Hthis & Hsl).
  { exact Hbuf1. }
  { exact Hfuse1. }
  { rewrite Hsl1'. cbn. lia. }
  { cbn. lia. }
  assert (PushBack_copy (Slot (subscript (this s) i)) s = Ret tt s') as Hpush.
  { unfold PushBack_copy. members.
    destruct (Z.ltb_spec (size_ (this s)) (capacity_ (this s))) as [|_]; [lia|].
    rewrite wrap_small by lia.
    rewrite (bind_Ret _ _ _ _ _ Hrun), Hsub.
    by rewrite copy_at_end_dangling. }
  exists x, s'.
  split; [done|]. split; [|split; [|split; [done|split; [|split; [|split; [|split]]]]]].
  - rewrite Hsub. exists l, (slots s).
    split; [done|]. split; [exact Hl|]. split; [cbn; lia|].
    unfold elements in Hx. by apply lookup_take_Some in Hx as [Hx _].
  - rewrite Hsub. cbn. rewrite Hd. cbn. by intros Hne.
  - unfold Insert_copy.
    rewrite bind_assert_position by (unfold distance; lia).
    rewrite bind_end. fold (end_of (this s)). rewrite ptr_eqb_refl.
    rewrite (bind_Ret _ _ _ _ _ Hpush). members.
    rewrite Hthis. unfold subscript, ArrayPtr_index, ptr_add, ret. cbn.
    rewrite Hsz1. do 2 f_equal. lia.
  - rewrite Hfl, Hsub. cbn. by rewrite Hfl1.
  - rewrite Hthis. cbn. lia.
  - rewrite Hthis. cbn. lia.
  - unfold elements at 1. rewrite Hthis, Hsl, Hsl1'. cbn.
    rewrite take_take.
    replace (Z.to_nat (size_ (this s)) `min` Z.to_nat (size_ (this s1) + 1))%nat
      with (Z.to_nat (size_ (this s))) by lia.
    rewrite Hsz1, take_insert_ge by lia.
    by rewrite Hsl1, take_app_length' by done.
Qed.

End Theory.

(** * Instances on [SimpleVector<int>] *)

(** The sample vectors, as their constructors leave them. *)
Example vec_123_shape :
  observe (SimpleVector_init [1; 2; 3] (boot None))
  = Some (inl tt, MkSimpleVector (MkArrayPtr (Ptr (Some 0%nat) 0)) 3 3,
          [1; 2; 3], []).
Proof. by vm_compute. Qed.

Example vec_123_roomy_shape :
  observe ((SimpleVector_init [1; 2; 3] ;; Reserve 5) (boot None))
  = Some (inl tt, MkSimpleVector (MkArrayPtr (Ptr (Some 1%nat) 0)) 3 5,
          [1; 2; 3; 0; 0], []).
Proof. by vm_compute. Qed.

Example vec_78_reserved_shape :
  observe ((SimpleVector_reserved 3 ;; PushBack_move 7 ;; PushBack_move 8)
             (boot None))
  = Some (inl tt, MkSimpleVector (MkArrayPtr (Ptr (Some 0%nat) 0)) 2 3,
          [7; 8; 0], []).
Proof. by vm_compute. Qed.

Example two_vectors_shape :
  this (fst two_vectors) = MkSimpleVector (MkArrayPtr (Ptr (Some 0%nat) 0)) 3 3 ∧
  elements (fst two_vectors) = [1; 2; 3] ∧
  snd two_vectors = MkSimpleVector (MkArrayPtr (Ptr (Some 1%nat) 0)) 2 2 ∧
  elements (with_this (snd two_vectors) (fst two_vectors)) = [7; 8].
Proof. by vm_compute. Qed.

Lemma vec_123_valid : valid vec_123.
Proof.
  split.
  - right. exists 0%nat, [1; 2; 3]. by vm_compute.
  - by vm_compute.
  - by vm_compute.
  - by vm_compute.
Defined.

Lemma vec_123_backed : backed vec_123.
Proof.
  split.
  - right. exists 0%nat, [1; 2; 3]. by vm_compute.
  - by vm_compute.
  - by vm_compute.
Defined.

Lemma vec_123_roomy_valid : valid vec_123_roomy.
Proof.
  split.
  - right. exists 1%nat, [1; 2; 3; 0; 0]. by vm_compute.
  - by vm_compute.
  - by vm_compute.
  - by vm_compute.
Defined.

Lemma vec_78_reserved_valid : valid vec_78_reserved.
Proof.
  split.
  - right. exists 0%nat, [7; 8; 0]. by vm_compute.
  - by vm_compute.
  - by vm_compute.
  - by vm_compute.
Defined.

(** The scenario of the specification: [{1, 2, 3}], PushBack(4),
    Insert(begin() + 1, 10), Erase(begin()), all with temporaries, ends as
    10, 2, 3, 4. *)
Example scenario_push_insert_erase :
  elements
    (final ((SimpleVector_init [1; 2; 3] ;;
             PushBack_move 4 ;;
             b <- begin_ ;; Insert_move (ptr_add b 1) 10 ;;
             b <- begin_ ;; Erase b) (boot None)))
  = [10; 2; 3; 4].
Proof. by vm_compute. Qed.



(** Resize of [{1, 2, 3}] to 5. *)
Lemma Resize_spec_witness :
  ∃ s', Resize 5 vec_123 = Ret tt s' ∧ resized vec_123 5 s'.
Proof.
  apply (Resize_spec vec_123 5).
  - exact vec_123_backed.
  - reflexivity.
  - lia.
Defined.

(** Erase of the middle element of [{1, 2, 3}]. *)
Lemma Erase_spec_witness :
  ∃ r s', Erase (ptr_add (begin_of (this vec_123)) 1) vec_123 = Ret r s' ∧
          faults s' = faults vec_123 ∧
          elements s' = delete (Z.to_nat 1) (elements vec_123) ∧
          GetSize (this s') = GetSize (this vec_123) - 1 ∧
          r = ptr_add (begin_of (this s')) 1 ∧
          (1 = GetSize (this vec_123) - 1 → r = end_of (this s')).
Proof.
  apply (Erase_spec vec_123 1).
  - exact vec_123_backed.
  - reflexivity.
  - by vm_compute.
Defined.

(** [At(1)] on [{1, 2, 3}] is the address of the slot that holds 2. *)
Lemma At_spec_witness :
  ∃ x, elements vec_123 !! Z.to_nat 1 = Some x ∧
       load (subscript (this vec_123) 1) vec_123 = Ret x vec_123.
Proof.
  apply (At_spec vec_123 1).
  - exact vec_123_backed.
  - by vm_compute.
Defined.

(** C1. The copy overload of Insert with room to spare, on [{1, 2, 3}] of
    capacity 5 at index 1: SeсureInsert shifts and stores in the old
    buffer and then swaps in the fresh one, so the vector is left with
    value-initialised slots only; the position returned is that of a 0,
    not of the 10. The move overload on the same input inserts the
    value. *)
Theorem Insert_copy_drops_elements :
  valid vec_123_roomy ∧
  observe (Insert_copy (ptr_add (begin_of (this vec_123_roomy)) 1) (Local 10)
             vec_123_roomy)
  = Some (inl (Ptr (Some 2%nat) 1),
          MkSimpleVector (MkArrayPtr (Ptr (Some 2%nat) 0)) 4 5,
          [0; 0; 0; 0; 0], []) ∧
  observe (Insert_move (ptr_add (begin_of (this vec_123_roomy)) 1) 10 vec_123_roomy)
  = Some (inl (Ptr (Some 1%nat) 1),
          MkSimpleVector (MkArrayPtr (Ptr (Some 1%nat) 0)) 4 5,
          [1; 10; 2; 3; 0], []).
Proof. split; [exact vec_123_roomy_valid|]. split; by vm_compute. Qed.

(** C2. The copy overload of Insert on the full vector [{1, 2, 3}] at
    index 1: Resize(size_ + 1) has already made size and capacity 4 when
    SeсureInsert increments the size again, so the vector ends with size 5
    and capacity 4; the shift also writes the slot at index 4 of a buffer
    of 4 slots. *)
Theorem Insert_copy_full_breaks_invariant :
  valid vec_123 ∧
  ∃ r s',
    Insert_copy (ptr_add (begin_of (this vec_123)) 1) (Local 10) vec_123
    = Ret r s' ∧
    GetSize (this s') = 5 ∧ GetCapacity (this s') = 4 ∧
    ¬ (GetSize (this s') ≤ GetCapacity (this s')) ∧
    slots s' = [0; 0; 0; 0] ∧
    faults s' = [BadAccess (Ptr (Some 1%nat) 4)].
Proof.
  split; [exact vec_123_valid|].
  eexists _, _. split; [by vm_compute|]. by vm_compute.
Qed.

(** C3. Move construction and move assignment of an ArrayPtr that holds a
    buffer: the destination gets the pointer, the source keeps it and
    still converts to [true]; destroying both deletes the buffer twice. *)
Theorem ArrayPtr_move_keeps_source :
  let '(s, a) := owner_of_3 in
  ArrayPtr_bool a = true ∧
  ArrayPtr_move_ctor a = (a, a) ∧
  ArrayPtr_bool (snd (ArrayPtr_move_ctor a)) = true ∧
  ArrayPtr_move_assign ArrayPtr_default (Other a) = (a, Other a) ∧
  ArrayPtr_move_assign a Self = (a, Self) ∧
  observe ((ArrayPtr_dtor (fst (ArrayPtr_move_ctor a)) ;;
            ArrayPtr_dtor (snd (ArrayPtr_move_ctor a))) s)
  = Some (inl tt, empty_vector, [], [BadDelete (Ptr (Some 0%nat) 0)]).
Proof. by vm_compute. Qed.

(** C4. Erase on a vector of size 2 and capacity 3: the buffer swapped in
    has 2 slots and [capacity_] still says 3; two PushBack calls later the
    second one stores at index 2 of that buffer. *)
Theorem Erase_leaves_capacity_stale :
  valid vec_78_reserved ∧
  observe ((b <- begin_ ;; Erase b) vec_78_reserved)
  = Some (inl (Ptr (Some 1%nat) 0),
          MkSimpleVector (MkArrayPtr (Ptr (Some 1%nat) 0)) 1 3,
          [8; 0], []) ∧
  observe ((b <- begin_ ;; Erase b ;; PushBack_move 9 ;; PushBack_move 10)
             vec_78_reserved)
  = Some (inl tt,
          MkSimpleVector (MkArrayPtr (Ptr (Some 1%nat) 0)) 3 3,
          [8; 9], [BadAccess (Ptr (Some 1%nat) 2)]).
Proof. split; [exact vec_78_reserved_valid|]. split; by vm_compute. Qed.

(** C5. The copy overload of Insert when an element copy throws. With
    room to spare, on [{1, 2, 3}] of capacity 5 at index 0, the third copy
    of the shift throws: the shift ran in the vector's own buffer, whose
    elements are now 1, 2, 2, and the handler and the unwinding delete the
    spare buffer twice. On the full vector [{1, 2, 3}] a constructor that
    throws while SeсureInsert builds its buffer leaves size and capacity
    at 4, where Resize put them. *)
Theorem Insert_copy_throw_tears_elements :
  elements vec_123_roomy = [1; 2; 3] ∧
  observe (Insert_copy (begin_of (this vec_123_roomy)) (Local 10)
             (vec_123_roomy_fused 17))
  = Some (inr element_error,
          MkSimpleVector (MkArrayPtr (Ptr (Some 1%nat) 0)) 3 5,
          [1; 2; 2; 3; 0], [BadDelete (Ptr (Some 2%nat) 0)]) ∧
  this vec_123 = MkSimpleVector (MkArrayPtr (Ptr (Some 0%nat) 0)) 3 3 ∧
  observe (Insert_copy (begin_of (this vec_123)) (Local 10) (vec_123_fused 20))
  = Some (inr element_error,
          MkSimpleVector (MkArrayPtr (Ptr (Some 1%nat) 0)) 4 4,
          [1; 2; 3; 0], []).
Proof. repeat split; by vm_compute. Qed.

(** C7. The copy overload of PushBack on the full vector [{1, 2, 3}] with
    its own first element as the item, [v.PushBack(v[0])]: the reference
    reads 1 before the call, but Reserve has freed the buffer it points
    into when [data_[size_++] = item] reads it, a use after free, and the
    value at index 3 is not that 1. The same call with room to spare, and
    on the full vector with an item outside the buffer, stores the 1. *)
Theorem PushBack_copy_reads_freed_item :
  valid vec_123 ∧
  observe (read (Slot (subscript (this vec_123) 0)) vec_123)
  = Some (inl 1, MkSimpleVector (MkArrayPtr (Ptr (Some 0%nat) 0)) 3 3,
          [1; 2; 3], []) ∧
  observe (PushBack_copy (Slot (subscript (this vec_123) 0)) vec_123)
  = Some (inl tt, MkSimpleVector (MkArrayPtr (Ptr (Some 1%nat) 0)) 4 4,
          [1; 2; 3; 0], [BadAccess (Ptr (Some 0%nat) 0)]) ∧
  observe (PushBack_copy (Slot (subscript (this vec_123_roomy) 0)) vec_123_roomy)
  = Some (inl tt, MkSimpleVector (MkArrayPtr (Ptr (Some 1%nat) 0)) 4 5,
          [1; 2; 3; 1; 0], []) ∧
  observe (PushBack_copy (Local 1) vec_123)
  = Some (inl tt, MkSimpleVector (MkArrayPtr (Ptr (Some 1%nat) 0)) 4 4,
          [1; 2; 3; 1], []).
Proof. split; [exact vec_123_valid|]. repeat split; by vm_compute. Qed.

(** C6, as stated, fails for move assignment: with [b{1, 2, 3}] the target
    and [a{7, 8}] the source, [b = std::move(a)] leaves [a] with size 3. *)
Lemma move_assign_source_not_empty :
  ¬ (∀ a' s',
       move_assign (Other (snd two_vectors)) (fst two_vectors) = Ret (Other a') s' →
       GetSize a' = 0).
Proof.
  intros Hclaim.
  specialize (Hclaim (this (fst two_vectors))
                (with_this (snd two_vectors) (fst two_vectors)) eq_refl).
  vm_compute in Hclaim. discriminate.
Qed.

(** ** Instances of the further properties *)

Lemma two_vectors_other_valid : valid (with_this (snd two_vectors) (fst two_vectors)).
Proof.
  split.
  - right. exists 1%nat, [7; 8]. by vm_compute.
  - by vm_compute.
  - by vm_compute.
  - by vm_compute.
Defined.

Lemma two_vectors_other_backed : backed (with_this (snd two_vectors) (fst two_vectors)).
Proof.
  split.
  - right. exists 1%nat, [7; 8]. by vm_compute.
  - by vm_compute.
  - by vm_compute.
Defined.

Lemma two_vectors_this_backed :
  backed (with_this (this (fst two_vectors)) (fst two_vectors)).
Proof.
  split.
  - right. exists 0%nat, [1; 2; 3]. by vm_compute.
  - by vm_compute.
  - by vm_compute.
Defined.

Lemma vec_123_fused_valid : valid (vec_123_fused 16).
Proof.
  split.
  - right. exists 0%nat, [1; 2; 3]. by vm_compute.
  - by vm_compute.
  - by vm_compute.
  - by vm_compute.
Defined.

(** [PopBack()] on [{1, 2, 3}]. *)
Lemma PopBack_spec_witness :
  ∃ s', PopBack vec_123 = Ret tt s' ∧
        GetSize (this s') = GetSize (this vec_123) - 1 ∧
        GetCapacity (this s') = GetCapacity (this vec_123) ∧
        data_ (this s') = data_ (this vec_123) ∧ heap s' = heap vec_123 ∧
        faults s' = faults vec_123 ∧
        elements s' = take (Z.to_nat (GetSize (this vec_123)) - 1) (elements vec_123).
Proof.
  apply (proj2 (PopBack_spec vec_123)). by vm_compute.
Defined.

(** [Erase(begin() + 3)] on [{1, 2, 3}]. *)
Lemma position_asserts_witness :
  Erase (ptr_add (begin_of (this vec_123)) 3) vec_123 = Aborted.
Proof.
  apply (proj2 (position_asserts vec_123 3 (Local 0) 0)). by vm_compute.
Defined.

(** [ArrayPtr<int> a(3)] in an empty free store. *)
Lemma ArrayPtr_sized_spec_witness :
  ∃ a s', ArrayPtr_sized 3 (boot None) = Ret a s' ∧
    this s' = this (boot None) ∧ fuse s' = None ∧ faults s' = faults (boot None) ∧
    heap (boot None) ⊆ heap s' ∧
    (ArrayPtr_bool a = true ↔ 3 ≠ 0) ∧
    (3 = 0 → a = MkArrayPtr nullptr ∧ heap s' = heap (boot None)) ∧
    (0 < 3 →
     block_at (heap (boot None)) (raw_ptr_ a) = None ∧
     block_at (heap s') (raw_ptr_ a) = Some (replicate (Z.to_nat 3) dflt)).
Proof.
  apply (ArrayPtr_sized_spec (boot None) 3).
  - reflexivity.
  - lia.
Defined.

(** [{ ArrayPtr<int> a(3); }] in an empty free store. *)
Lemma ArrayPtr_sized_dtor_witness :
  (a <- ArrayPtr_sized 3 ;; ArrayPtr_dtor a) (boot None) = Ret tt (boot None).
Proof.
  apply (ArrayPtr_sized_dtor (boot None) 3).
  - reflexivity.
  - lia.
Defined.

(** [Release] on the owner of a block of three slots. *)
Lemma ArrayPtr_Release_spec_witness :
  fst (ArrayPtr_Release (snd owner_of_3)) = raw_ptr_ (snd owner_of_3) ∧
  ArrayPtr_bool (snd (ArrayPtr_Release (snd owner_of_3))) = false ∧
  ArrayPtr_adopt (fst (ArrayPtr_Release (snd owner_of_3))) = (snd owner_of_3) ∧
  ArrayPtr_dtor (snd (ArrayPtr_Release (snd owner_of_3))) (fst owner_of_3) = Ret tt (fst owner_of_3) ∧
  (ArrayPtr_dtor (snd (ArrayPtr_Release (snd owner_of_3))) ;;
   ArrayPtr_dtor (ArrayPtr_adopt (fst (ArrayPtr_Release (snd owner_of_3))))) (fst owner_of_3)
  = Ret tt (with_heap (delete 0%nat (heap (fst owner_of_3))) (fst owner_of_3)).
Proof.
  apply (ArrayPtr_Release_spec (fst owner_of_3) (snd owner_of_3) 0%nat [0; 0; 0]).
  - reflexivity.
  - by vm_compute.
Defined.

(** The buffers of [{1, 2, 3}] and [{7, 8}], swapped and move-assigned. *)
Lemma ArrayPtr_swap_spec_witness :
  ArrayPtr_swap (data_ (this (fst two_vectors))) (data_ (snd two_vectors)) = ((data_ (snd two_vectors)), (data_ (this (fst two_vectors)))) ∧
  ArrayPtr_swap (fst (ArrayPtr_swap (data_ (this (fst two_vectors))) (data_ (snd two_vectors)))) (snd (ArrayPtr_swap (data_ (this (fst two_vectors))) (data_ (snd two_vectors)))) = ((data_ (this (fst two_vectors))), (data_ (snd two_vectors))) ∧
  (ArrayPtr_dtor (fst (ArrayPtr_swap (data_ (this (fst two_vectors))) (data_ (snd two_vectors)))) ;;
   ArrayPtr_dtor (snd (ArrayPtr_swap (data_ (this (fst two_vectors))) (data_ (snd two_vectors))))) (fst two_vectors)
  = Ret tt (with_heap (delete 0%nat (delete 1%nat (heap (fst two_vectors)))) (fst two_vectors)) ∧
  (ArrayPtr_dtor (fst (ArrayPtr_move_assign (data_ (this (fst two_vectors))) (Other (data_ (snd two_vectors))))) ;; ArrayPtr_dtor (data_ (snd two_vectors))) (fst two_vectors)
  = Ret tt (add_fault (BadDelete (raw_ptr_ (data_ (snd two_vectors))))
              (with_heap (delete 1%nat (heap (fst two_vectors))) (fst two_vectors))) ∧
  delete 1%nat (heap (fst two_vectors)) !! 0%nat = Some [1; 2; 3].
Proof.
  apply (ArrayPtr_swap_spec (fst two_vectors) (data_ (this (fst two_vectors)))
           (data_ (snd two_vectors)) 0%nat 1%nat [1; 2; 3] [7; 8]).
  - reflexivity.
  - reflexivity.
  - lia.
  - by vm_compute.
  - by vm_compute.
Defined.

(** [Reserve(5)] on [{1, 2, 3}]. *)
Lemma Reserve_spec_witness :
  ∃ s', Reserve 5 vec_123 = Ret tt s' ∧
        valid s' ∧ faults s' = faults vec_123 ∧
        GetSize (this s') = GetSize (this vec_123) ∧
        elements s' = elements vec_123 ∧
        GetCapacity (this s') = Z.max (GetCapacity (this vec_123)) 5 ∧
        (5 ≤ GetCapacity (this vec_123) → s' = vec_123).
Proof.
  apply (Reserve_spec vec_123 5).
  - exact vec_123_valid.
  - reflexivity.
  - by vm_compute.
Defined.

(** [SimpleVector<int> v(3)]. *)
Lemma SimpleVector_sized_spec_witness :
  ∃ s', SimpleVector_sized 3 (boot None) = Ret tt s' ∧
        valid s' ∧ faults s' = faults (boot None) ∧ heap (boot None) ⊆ heap s' ∧
        GetSize (this s') = 3 ∧ GetCapacity (this s') = 3 ∧
        elements s' = replicate (Z.to_nat 3) dflt ∧
        (3 = 0 → this s' = empty_vector ∧ heap s' = heap (boot None)).
Proof.
  apply (SimpleVector_sized_spec (boot None) 3).
  - reflexivity.
  - by vm_compute.
Defined.

(** [SimpleVector<int> v(3, 7)]. *)
Lemma SimpleVector_filled_spec_witness :
  ∃ s', SimpleVector_filled 3 7 (boot None) = Ret tt s' ∧
        valid s' ∧ faults s' = faults (boot None) ∧ heap (boot None) ⊆ heap s' ∧
        GetSize (this s') = 3 ∧ GetCapacity (this s') = 3 ∧
        elements s' = replicate (Z.to_nat 3) 7.
Proof.
  apply (SimpleVector_filled_spec (boot None) 3 7).
  - reflexivity.
  - by vm_compute.
Defined.

(** [SimpleVector<int> v{1, 2, 3}]. *)
Lemma SimpleVector_init_spec_witness :
  ∃ s', SimpleVector_init [1; 2; 3] (boot None) = Ret tt s' ∧
        valid s' ∧ faults s' = faults (boot None) ∧ heap (boot None) ⊆ heap s' ∧
        GetSize (this s') = Z.of_nat (length [1; 2; 3]) ∧
        GetCapacity (this s') = Z.of_nat (length [1; 2; 3]) ∧
        elements s' = [1; 2; 3].
Proof.
  apply (SimpleVector_init_spec (boot None) [1; 2; 3]).
  - reflexivity.
  - by vm_compute.
Defined.

(** [SimpleVector<int> v(Reserve(3)); v.PushBack(7)]. *)
Lemma SimpleVector_reserved_spec_witness :
  ∃ s' s'',
    SimpleVector_reserved 3 (boot None) = Ret tt s' ∧
    valid s' ∧ faults s' = faults (boot None) ∧ heap (boot None) ⊆ heap s' ∧
    GetSize (this s') = 0 ∧ GetCapacity (this s') = 3 ∧
    IsEmpty (this s') = true ∧
    PushBack_copy (Local 7) s' = Ret tt s'' ∧
    data_ (this s'') = data_ (this s') ∧
    GetCapacity (this s'') = 3 ∧
    elements s'' = [7].
Proof.
  apply (SimpleVector_reserved_spec (boot None) 3 7).
  - reflexivity.
  - by vm_compute.
Defined.


(** [Clear()] then [PushBack(4)] on [{1, 2, 3}]. *)
Lemma Clear_spec_witness :
  ∃ s' s'',
    Clear vec_123 = Ret tt s' ∧
    IsEmpty (this s') = true ∧ elements s' = [] ∧
    GetCapacity (this s') = GetCapacity (this vec_123) ∧
    data_ (this s') = data_ (this vec_123) ∧ heap s' = heap vec_123 ∧ slots s' = slots vec_123 ∧
    PushBack_copy (Local 4) s' = Ret tt s'' ∧
    data_ (this s'') = data_ (this vec_123) ∧
    GetCapacity (this s'') = GetCapacity (this vec_123) ∧
    elements s'' = [4] ∧ faults s'' = faults vec_123.
Proof.
  apply (Clear_spec vec_123 4).
  - exact vec_123_valid.
  - reflexivity.
  - by vm_compute.
Defined.


(** Index 3 of [{1, 2, 3}] with capacity 5. *)
Lemma subscript_unchecked_witness :
  At 3 vec_123_roomy = Throw out_of_range vec_123_roomy ∧
  ∃ x, slots vec_123_roomy !! Z.to_nat 3 = Some x ∧
       load (subscript (this vec_123_roomy) 3) vec_123_roomy = Ret x vec_123_roomy.
Proof.
  apply (subscript_unchecked vec_123_roomy 3).
  - exact vec_123_roomy_valid.
  - by vm_compute.
Defined.


(** [Erase(Insert(begin() + 1, 10))] on the full vector [{1, 2, 3}]. *)
Lemma Insert_Erase_witness :
  ∃ r s',
    (p <- Insert_move (ptr_add (begin_of (this vec_123)) 1) 10 ;; Erase p) vec_123
    = Ret r s' ∧
    faults s' = faults vec_123 ∧
    GetSize (this s') = GetSize (this vec_123) ∧
    elements s' = elements vec_123 ∧
    r = subscript (this s') 1.
Proof.
  apply (Insert_Erase vec_123 1 10).
  - exact vec_123_valid.
  - reflexivity.
  - by vm_compute.
  - by vm_compute.
Defined.

(** A copy of [{7, 8}] built beside [{1, 2, 3}]. *)
Lemma SimpleVector_copy_spec_witness :
  ∃ s', SimpleVector_copy (snd two_vectors) (fst two_vectors) = Ret tt s' ∧
        valid s' ∧ faults s' = faults (fst two_vectors) ∧ heap (fst two_vectors) ⊆ heap s' ∧
        GetSize (this s') = GetSize (snd two_vectors) ∧
        GetCapacity (this s') = GetCapacity (snd two_vectors) ∧
        elements s' = elements (with_this (snd two_vectors) (fst two_vectors)) ∧
        elements (with_this (snd two_vectors) s') = elements (with_this (snd two_vectors) (fst two_vectors)) ∧
        drop (Z.to_nat (GetSize (snd two_vectors))) (slots s')
        = replicate (Z.to_nat (GetCapacity (snd two_vectors)) - Z.to_nat (GetSize (snd two_vectors))) dflt ∧
        block_at (heap (fst two_vectors)) (raw_ptr_ (data_ (this s'))) = None.
Proof.
  apply (SimpleVector_copy_spec (fst two_vectors) (snd two_vectors)).
  - exact two_vectors_other_valid.
  - reflexivity.
Defined.

(** [b = a] for [b{1, 2, 3}] and [a{7, 8}]. *)
Lemma copy_assign_spec_witness :
  ∃ s', copy_assign (Other (snd two_vectors)) (fst two_vectors) = Ret tt s' ∧
        valid s' ∧ faults s' = faults (fst two_vectors) ∧
        GetSize (this s') = GetSize (snd two_vectors) ∧
        GetCapacity (this s') = GetCapacity (snd two_vectors) ∧
        elements s' = elements (with_this (snd two_vectors) (fst two_vectors)) ∧
        elements (with_this (snd two_vectors) s') = elements (with_this (snd two_vectors) (fst two_vectors)) ∧
        (raw_ptr_ (data_ (this (fst two_vectors))) ≠ nullptr →
         block_at (heap s') (raw_ptr_ (data_ (this (fst two_vectors)))) = None) ∧
        copy_assign Self (fst two_vectors) = Ret tt (fst two_vectors).
Proof.
  apply (copy_assign_spec (fst two_vectors) (snd two_vectors)).
  - right. exists 0%nat, [1; 2; 3]. by vm_compute.
  - exact two_vectors_other_valid.
  - reflexivity.
  - right. by vm_compute.
Defined.

(** [{1, 2, 3}] when the third element operation from now throws: a buffer of five slots is not built. *)
Lemma construction_throw_witness :
  ∃ s',
    this s' = this (vec_123_fused 2) ∧ fuse s' = None ∧ faults s' = faults (vec_123_fused 2) ∧
    heap (vec_123_fused 2) ⊆ heap s' ∧ elements s' = elements (vec_123_fused 2) ∧
    ((2%nat < Z.to_nat 5)%nat → heap s' = heap (vec_123_fused 2)) ∧
    ((Z.to_nat 5 ≤ 2%nat)%nat → ∃ l, heap (vec_123_fused 2) !! l = None ∧ is_Some (heap s' !! l)) ∧
    (GetCapacity (this (vec_123_fused 2)) < 5 → Reserve 5 (vec_123_fused 2) = Throw element_error s') ∧
    (GetSize (this (vec_123_fused 2)) ≤ 5 → Resize 5 (vec_123_fused 2) = Throw element_error s') ∧
    (GetSize (this (vec_123_fused 2)) = 5 → 0 ≤ 1 < 5 →
     Erase (ptr_add (begin_of (this (vec_123_fused 2))) 1) (vec_123_fused 2) = Throw element_error s') ∧
    (GetCapacity (this (vec_123_fused 2)) = 5 → 0 ≤ 1 < GetSize (this (vec_123_fused 2)) → GetSize (this (vec_123_fused 2)) < 5 →
     Insert_copy (ptr_add (begin_of (this (vec_123_fused 2))) 1) (Local 9) (vec_123_fused 2) = Throw element_error s').
Proof.
  apply (construction_throw (vec_123_fused 2) 2 5 1 (Local 9)).
  - right. exists 0%nat, [1; 2; 3]. by vm_compute.
  - reflexivity.
  - lia.
  - vm_compute. lia.
Defined.

(** [Reserve(5)] and [Resize(5)] on [{1, 2, 3}] when the move of the second element throws. *)
Lemma relocation_throw_witness :
  ∃ s' p,
    Reserve 5 (vec_123_fused 16) = Throw element_error s' ∧
    Resize 5 (vec_123_fused 16) = Throw element_error s' ∧
    this s' = this (vec_123_fused 16) ∧
    faults s' = BadDelete p :: faults (vec_123_fused 16) ∧
    elements s' = (moved <$> take 1%nat (elements (vec_123_fused 16))) ++ drop 1%nat (elements (vec_123_fused 16)).
Proof.
  apply (relocation_throw (vec_123_fused 16) 5 1).
  - exact vec_123_fused_valid.
  - by vm_compute.
  - by vm_compute.
  - by vm_compute.
  - reflexivity.
  - vm_compute. lia.
Defined.

(** [{1, 2, 3} < {7, 8}] and [{1, 2, 3} > {7, 8}]. *)
Lemma operator_lt_spec_witness :
  operator_lt (this (fst two_vectors)) (snd two_vectors) (fst two_vectors)
  = Ret (lex_lt (elements (with_this (this (fst two_vectors)) (fst two_vectors))) (elements (with_this (snd two_vectors) (fst two_vectors)))) (fst two_vectors) ∧
  operator_gt (this (fst two_vectors)) (snd two_vectors) (fst two_vectors)
  = Ret (lex_lt (elements (with_this (snd two_vectors) (fst two_vectors))) (elements (with_this (this (fst two_vectors)) (fst two_vectors)))) (fst two_vectors) ∧
  operator_gt (this (fst two_vectors)) (snd two_vectors) (fst two_vectors) = operator_lt (snd two_vectors) (this (fst two_vectors)) (fst two_vectors).
Proof.
  apply (operator_lt_spec (this (fst two_vectors)) (snd two_vectors) (fst two_vectors)).
  - exact two_vectors_this_backed.
  - exact two_vectors_other_backed.
Defined.

(** The six operators on [{1, 2, 3}] and [{7, 8}]. *)
Lemma derived_operators_witness :
  ∃ a b,
    operator_lt (this (fst two_vectors)) (snd two_vectors) (fst two_vectors) = Ret a (fst two_vectors) ∧
    operator_lt (snd two_vectors) (this (fst two_vectors)) (fst two_vectors) = Ret b (fst two_vectors) ∧
    operator_eq (this (fst two_vectors)) (snd two_vectors) (fst two_vectors) = Ret (negb a && negb b) (fst two_vectors) ∧
    operator_ne (this (fst two_vectors)) (snd two_vectors) (fst two_vectors) = Ret (a || b) (fst two_vectors) ∧
    operator_le (this (fst two_vectors)) (snd two_vectors) (fst two_vectors) = Ret (a || negb b) (fst two_vectors) ∧
    operator_ge (this (fst two_vectors)) (snd two_vectors) (fst two_vectors) = Ret (negb a) (fst two_vectors).
Proof.
  apply (derived_operators (this (fst two_vectors)) (snd two_vectors) (fst two_vectors)).
  - exact two_vectors_this_backed.
  - exact two_vectors_other_backed.
Defined.

(** [{1, 2, 3} == {7, 8}] with [<] of [int]. *)
Lemma operator_eq_spec_witness :
  ∃ e,
    operator_eq (this (fst two_vectors)) (snd two_vectors) (fst two_vectors) = Ret e (fst two_vectors) ∧
    operator_ne (this (fst two_vectors)) (snd two_vectors) (fst two_vectors) = Ret (negb e) (fst two_vectors) ∧
    (e = true ↔ elements (with_this (this (fst two_vectors)) (fst two_vectors)) = elements (with_this (snd two_vectors) (fst two_vectors))).
Proof.
  apply (operator_eq_spec (this (fst two_vectors)) (snd two_vectors) (fst two_vectors)).
  - intros x. apply Z.ltb_irrefl.
  - intros x y Hxy Hyx. apply Z.ltb_ge in Hxy, Hyx. lia.
  - exact two_vectors_this_backed.
  - exact two_vectors_other_backed.
Defined.

(** [v.PushBack(v[1])] on the full vector [{1, 2, 3}]. *)
Lemma PushBack_copy_own_element_witness :
  ∃ x s',
    elements vec_123 !! Z.to_nat 1 = Some x ∧
    refers vec_123 (Slot (subscript (this vec_123) 1)) x ∧
    ¬ foreign vec_123 (Slot (subscript (this vec_123) 1)) ∧
    PushBack_copy (Slot (subscript (this vec_123) 1)) vec_123 = Ret tt s' ∧
    Insert_copy (end_of (this vec_123)) (Slot (subscript (this vec_123) 1)) vec_123
    = Ret (subscript (this s') (GetSize (this vec_123))) s' ∧
    faults s' = BadAccess (subscript (this vec_123) 1) :: faults vec_123 ∧
    GetSize (this s') = GetSize (this vec_123) + 1 ∧
    GetCapacity (this s') = GetSize (this vec_123) + 1 ∧
    take (Z.to_nat (GetSize (this vec_123))) (elements s') = elements vec_123.
Proof.
  apply (PushBack_copy_own_element vec_123 1).
  - exact vec_123_valid.
  - reflexivity.
  - reflexivity.
  - by vm_compute.
  - by vm_compute.
Defined.
